(** * resume-chat: the chat relay route, its schemas and the chat panel

    A shallow embedding of

    - [web/lib/schemas.ts]: the zod schemas [chatMessageSchema],
      [chatRequestSchema] and [chatResponseSchema];
    - [web/app/api/chat/route.ts]: the [POST] handler that validates a chat
      request, forwards it to the upstream service and normalises the
      outcome;
    - [web/components/chat/ChatPanel.tsx]: the conversation state and its
      transitions ([sendMessage], [resetChat]).

    JavaScript values that cross the wire are modelled as JSON trees, the
    zod combinators as functions from a (possibly undefined) JSON value to
    a success/failure result, and the handler as a function in a small
    monad that carries thrown errors and the trace of network events.
    A string is the sequence of the UTF-8 bytes of its text. *)

From Stdlib Require Import String Ascii List Bool NArith ZArith Lia DecimalString.
Import ListNotations.
Open Scope string_scope.
Open Scope N_scope.
Open Scope list_scope.

(** ** JSON values *)

(** A decoded JSON value.  Object members keep their order; numbers are
    restricted to the integers a JavaScript number holds exactly and
    prints digit by digit, those of magnitude up to 2^53 - 1 (the relay
    never computes with them). *)
#[warnings="-register-all"]
Inductive JSON : Type :=
| JNull
| JBool (b : bool)
| JNumber (n : Z)
| JString (s : string)
| JArray (items : list JSON)
| JObject (members : list (string * JSON)).

(** Member lookup in an object's member list, [None] when there is none. *)
Fixpoint assoc (k : string) (members : list (string * JSON)) : option JSON :=
  match members with
  | [] => None
  | (k', v) :: rest => if String.eqb k k' then Some v else assoc k rest
  end.

(** Property access [v.k] of JavaScript: a member of an object, [undefined]
    ([None]) on arrays and primitives for the names used here. *)
Definition prop (v : JSON) (k : string) : option JSON :=
  match v with
  | JObject members => assoc k members
  | _ => None
  end.

(** JavaScript truthiness: [null], [false], [0] and the empty string are
    falsy, every array and object is truthy. *)
Definition truthy (v : JSON) : bool :=
  match v with
  | JNull => false
  | JBool b => b
  | JNumber n => negb (Z.eqb n 0)
  | JString s => negb (String.eqb s "")
  | JArray _ => true
  | JObject _ => true
  end.

(** [s.includes(sub)]. *)
Fixpoint includes (sub s : string) : bool :=
  String.prefix sub s ||
  match s with
  | EmptyString => false
  | String _ rest => includes sub rest
  end.

(** The names of an object's members. *)
Definition keys (v : JSON) : list string :=
  match v with
  | JObject members => map fst members
  | _ => []
  end.

(** ** zod *)

(** One step of an issue path: a member name or an array index. *)
Inductive PathSeg : Type :=
| Key (k : string)
| Index (i : nat).

Inductive IssueCode : Type :=
| invalid_type
| invalid_value
| too_small.

(** A validation issue: its code, the path of the offending field and the
    message given in the schema, if one was given. *)
Record Issue : Type := mkIssue {
  code : IssueCode;
  path : list PathSeg;
  custom_message : option string
}.

(** The result of [safeParse]. *)
Inductive SafeParse (A : Type) : Type :=
| Success (data : A)
| Failure (issues : list Issue).
Arguments Success {A} data.
Arguments Failure {A} issues.

(** A schema maps an input, [None] being [undefined], to a result. *)
Definition Schema (A : Type) : Type := option JSON -> SafeParse A.

Definition safeParse {A} (schema : Schema A) (data : JSON) : SafeParse A :=
  schema (Some data).

Definition issue_here (c : IssueCode) (msg : option string) : Issue :=
  {| code := c; path := []; custom_message := msg |}.

(** Issues of a nested value are reported under the path of that value. *)
Definition under (seg : PathSeg) (i : Issue) : Issue :=
  {| code := code i; path := seg :: path i; custom_message := custom_message i |}.

Definition at_path {A} (seg : PathSeg) (r : SafeParse A) : SafeParse A :=
  match r with
  | Success a => Success a
  | Failure issues => Failure (map (under seg) issues)
  end.

(** Both parts are checked and the issues of both are reported. *)
Definition both {A B C} (mk : A -> B -> C) (ra : SafeParse A) (rb : SafeParse B)
  : SafeParse C :=
  match ra, rb with
  | Success a, Success b => Success (mk a b)
  | Failure ia, Success _ => Failure ia
  | Success _, Failure ib => Failure ib
  | Failure ia, Failure ib => Failure (ia ++ ib)
  end.

(** [z.string()] *)
Definition z_string : Schema string :=
  fun input =>
    match input with
    | Some (JString s) => Success s
    | _ => Failure [issue_here invalid_type None]
    end.

(** [schema.min(n, msg)] on a string schema: the length check runs only on
    a value that passed [schema]. *)
Definition z_min (n : nat) (msg : string) (schema : Schema string) : Schema string :=
  fun input =>
    match schema input with
    | Success s =>
        if Nat.ltb (String.length s) n
        then Failure [issue_here too_small (Some msg)]
        else Success s
    | Failure issues => Failure issues
    end.

(** [z.boolean()] *)
Definition z_boolean : Schema bool :=
  fun input =>
    match input with
    | Some (JBool b) => Success b
    | _ => Failure [issue_here invalid_type None]
    end.

Fixpoint enum_value {A} (values : list (string * A)) (s : string) : option A :=
  match values with
  | [] => None
  | (name, a) :: rest => if String.eqb s name then Some a else enum_value rest s
  end.

(** [z.enum([...])]: the input has to be one of the listed strings. *)
Definition z_enum {A} (values : list (string * A)) : Schema A :=
  fun input =>
    match input with
    | Some (JString s) =>
        match enum_value values s with
        | Some a => Success a
        | None => Failure [issue_here invalid_value None]
        end
    | _ => Failure [issue_here invalid_value None]
    end.

(** The elements of an array, each under its index, from index [i] on. *)
Fixpoint parse_items {A} (elem : Schema A) (i : nat) (items : list JSON)
  : SafeParse (list A) :=
  match items with
  | [] => Success []
  | v :: rest =>
      both cons (at_path (Index i) (elem (Some v))) (parse_items elem (S i) rest)
  end.

(** [z.array(elem)] *)
Definition z_array {A} (elem : Schema A) : Schema (list A) :=
  fun input =>
    match input with
    | Some (JArray items) => parse_items elem 0 items
    | _ => Failure [issue_here invalid_type None]
    end.

(** [schema.optional()] *)
Definition z_optional {A} (schema : Schema A) : Schema (option A) :=
  fun input =>
    match input with
    | None => Success None
    | Some v =>
        match schema (Some v) with
        | Success a => Success (Some a)
        | Failure issues => Failure issues
        end
    end.

(** [z.object({ k1: s1, k2: s2 })]: the input has to be an object (not
    [null], not an array); each member of the shape is checked under its
    name, a missing member as [undefined]; members outside the shape are
    dropped from the result. *)
Definition z_object2 {A B C} (mk : A -> B -> C)
  (k1 : string) (s1 : Schema A) (k2 : string) (s2 : Schema B) : Schema C :=
  fun input =>
    match input with
    | Some (JObject members) =>
        both mk (at_path (Key k1) (s1 (assoc k1 members)))
                (at_path (Key k2) (s2 (assoc k2 members)))
    | _ => Failure [issue_here invalid_type None]
    end.

(** ** schemas.ts *)

Inductive Role : Type :=
| user
| assistant
| system.

Record ChatMessage : Type := mkChatMessage {
  role : Role;
  content : string
}.

Record ChatRequest : Type := mkChatRequest {
  message : string;
  history : option (list ChatMessage)
}.

Record ChatResponse : Type := mkChatResponse {
  reply : string;
  handled : bool
}.

Definition roles : list (string * Role) :=
  [("user", user); ("assistant", assistant); ("system", system)].

Definition chatMessageSchema : Schema ChatMessage :=
  z_object2 mkChatMessage
    "role" (z_enum roles)
    "content" (z_min 1 "Message cannot be empty" z_string).

Definition chatRequestSchema : Schema ChatRequest :=
  z_object2 mkChatRequest
    "message" z_string
    "history" (z_optional (z_array chatMessageSchema)).

Definition chatResponseSchema : Schema ChatResponse :=
  z_object2 mkChatResponse
    "reply" z_string
    "handled" z_boolean.

(** What [JSON.stringify] writes for a value of each type: the members in
    the order of the schema's shape, an [undefined] member left out. *)
Definition Role_name (r : Role) : string :=
  match r with
  | user => "user"
  | assistant => "assistant"
  | system => "system"
  end.

Definition ChatMessage_json (m : ChatMessage) : JSON :=
  JObject [("role", JString (Role_name (role m))); ("content", JString (content m))].

Definition ChatRequest_json (r : ChatRequest) : JSON :=
  JObject (("message", JString (message r)) ::
           match history r with
           | Some h => [("history", JArray (map ChatMessage_json h))]
           | None => []
           end).

Definition ChatResponse_json (r : ChatResponse) : JSON :=
  JObject [("reply", JString (reply r)); ("handled", JBool (handled r))].

(** ** Errors, promises and the trace of network events *)

(** A thrown [Error] object: [err.name] and [err.message]. *)
Record JsError : Type := mkError {
  name : string;
  err_message : string
}.

(** The outcome of awaiting a promise: it is fulfilled, it is rejected, or
    it never settles. *)
Inductive Result (A : Type) : Type :=
| Ok (a : A)
| Throw (e : JsError)
| Pending.
Arguments Ok {A} a.
Arguments Throw {A} e.
Arguments Pending {A}.

(** An abort signal: when it fires, counted in milliseconds from the moment
    the handler builds its composite signal ([None]: it never fires), and
    the reason it then carries. *)
Record AbortSignal : Type := mkSignal {
  fires_at : option N;
  reason : JsError
}.

(** The request the relay sends: [fetch(url, { method, headers, body,
    cache, signal })].  [body] is the value handed to [JSON.stringify]. *)
Record FetchCall : Type := mkFetchCall {
  url : string;
  method : string;
  headers : list (string * string);
  body : JSON;
  cache : string;
  signal : AbortSignal
}.

(** What the network layer does, in order. *)
Inductive Event : Type :=
| Fetched (call : FetchCall)
| Aborted (at_ms : N) (why : JsError).

(** An effectful computation: the events it caused and its outcome. *)
Definition M (A : Type) : Type := list Event * Result A.

Definition ret {A} (a : A) : M A := ([], Ok a).

Definition bind {A B} (m : M A) (f : A -> M B) : M B :=
  match m with
  | (t, Ok a) => let (t', r) := f a in (t ++ t', r)
  | (t, Throw e) => (t, Throw e)
  | (t, Pending) => (t, Pending)
  end.

Definition lift {A} (r : Result A) : M A := ([], r).

Notation "x <- m ;; k" := (bind m (fun x => k))
  (at level 100, m at next level, right associativity).

(** [promise.catch(() => v)] *)
Definition catch_with {A} (v : A) (m : M A) : M A :=
  match m with
  | (t, Throw _) => (t, Ok v)
  | other => other
  end.

(** [try { block } catch (err) { handler }] *)
Definition try_catch {A} (block : M A) (handler : JsError -> M A) : M A :=
  match block with
  | (t, Throw e) => let (t', r) := handler e in (t ++ t', r)
  | other => other
  end.

(** ** The runtime: zod's error objects, signals, [fetch], [Response] *)

(** Errors raised by the runtime rather than by the repository's code. *)
Inductive RuntimeError : Type :=
| ZodIssues (issues : list Issue)
| StatusOutOfRange (status : N)
| NullBodyStatus (status : N)
| TimedOut
| BadJson
| NotAnObject.

(** The parts of the runtime the code passes through unread: the JSON
    form of a zod issue ([parsed.error.issues] in a response body), the
    message text of the runtime's own errors, and [JSON.parse] on the text
    of a body ([None]: it throws a [SyntaxError]). *)
Record Runtime : Type := mkRuntime {
  issue_json : Issue -> JSON;
  error_text : RuntimeError -> string;
  json_parse : string -> option JSON
}.

(** [schema.parse(data)]: as [safeParse], but a failure is thrown as a
    [ZodError]. *)
Definition parse {A} (rt : Runtime) (schema : Schema A) (data : JSON) : Result A :=
  match safeParse schema data with
  | Success a => Ok a
  | Failure issues =>
      Throw {| name := "ZodError"; err_message := error_text rt (ZodIssues issues) |}
  end.

(** [AbortSignal.timeout(ms)]: fires after [ms] with a [TimeoutError]. *)
Definition AbortSignal_timeout (rt : Runtime) (ms : N) : AbortSignal :=
  {| fires_at := Some ms;
     reason := {| name := "TimeoutError"; err_message := error_text rt TimedOut |} |}.

(** Of two signals the one that fires first, the left one on a tie. *)
Definition first_of (a b : AbortSignal) : AbortSignal :=
  match fires_at a, fires_at b with
  | Some ta, Some tb => if tb <? ta then b else a
  | Some _, None => a
  | None, _ => b
  end.

(** A signal that never fires. *)
Definition never : AbortSignal :=
  {| fires_at := None;
     reason := {| name := "AbortError"; err_message := "This operation was aborted" |} |}.

(** [AbortSignal.any(signals)]: fires as soon as one of [signals] does,
    with the reason of that signal. *)
Definition AbortSignal_any (signals : list AbortSignal) : AbortSignal :=
  fold_right first_of never signals.

(** Whether [sig] has fired by time [t]. *)
Definition fired_by (sig : AbortSignal) (t : N) : bool :=
  match fires_at sig with
  | Some ts => ts <=? t
  | None => false
  end.

(** The upstream's response as the handler reads it: status, the
    [content-type] header if any, the time at which the body has arrived in
    full, and the body both as [res.json()] decodes it ([None]: it is not
    JSON) and as [res.text()] returns it. *)
Record UpstreamResponse : Type := mkUpstreamResponse {
  res_status : N;
  content_type : option string;
  body_at : N;
  json_body : option JSON;
  text_body : string
}.

(** What the upstream does with a call: it answers (the headers arrive) at
    some time, the connection fails at some time, or nothing ever comes
    back. *)
Inductive Upstream : Type :=
| Responds (at_ms : N) (res : UpstreamResponse)
| Fails (at_ms : N) (err : JsError)
| Silent.

Definition Network : Type := FetchCall -> Upstream.

(** Awaiting something that settles at time [t] (never, for [None]) under
    a signal: the signal wins if it has fired by then. *)
Definition settle {A} (sig : AbortSignal) (t : option N) (r : Result A) : M A :=
  match fires_at sig, t with
  | Some ts, Some t' =>
      if ts <=? t' then ([Aborted ts (reason sig)], Throw (reason sig)) else ([], r)
  | Some ts, None => ([Aborted ts (reason sig)], Throw (reason sig))
  | None, Some _ => ([], r)
  | None, None => ([], Pending)
  end.

(** [fetch(url, init)]: issues the call; resolves with the response once
    its headers are in, rejects with the error of a failed connection, and
    rejects with the signal's reason if the signal fires first. *)
Definition fetch (net : Network) (call : FetchCall) : M UpstreamResponse :=
  _ <- ([Fetched call], Ok tt) ;;
  match net call with
  | Responds t res => settle (signal call) (Some t) (Ok res)
  | Fails t err => settle (signal call) (Some t) (Throw err)
  | Silent => settle (signal call) None Pending
  end.

(** [res.json()] under the signal the response was fetched with. *)
Definition res_json (rt : Runtime) (sig : AbortSignal) (res : UpstreamResponse) : M JSON :=
  settle sig (Some (body_at res))
    match json_body res with
    | Some v => Ok v
    | None => Throw {| name := "SyntaxError"; err_message := error_text rt BadJson |}
    end.

(** [res.text()] under the signal the response was fetched with. *)
Definition res_text (sig : AbortSignal) (res : UpstreamResponse) : M string :=
  settle sig (Some (body_at res)) (Ok (text_body res)).

(** [res.ok] *)
Definition res_ok (res : UpstreamResponse) : bool :=
  (200 <=? res_status res) && (res_status res <=? 299).

(** The body of the response the handler returns. *)
Inductive Body : Type :=
| JsonBody (v : JSON)
| TextBody (s : string).

Record NextResponse : Type := mkNextResponse {
  status : N;
  resp_content_type : string;
  resp_body : Body
}.

(** Statuses a response may not carry together with a body. *)
Definition null_body_status (s : N) : bool :=
  (s =? 204) || (s =? 205) || (s =? 304).

(** [NextResponse.json(v, { status })]: the [Response] constructor throws a
    [RangeError] for a status outside 200..599 and a [TypeError] for a
    status that admits no body, as the Fetch standard has it for the
    initialisation of a response. *)
Definition NextResponse_json (rt : Runtime) (v : JSON) (s : N) : Result NextResponse :=
  if (s <? 200) || (599 <? s) then
    Throw {| name := "RangeError"; err_message := error_text rt (StatusOutOfRange s) |}
  else if null_body_status s then
    Throw {| name := "TypeError"; err_message := error_text rt (NullBodyStatus s) |}
  else
    Ok {| status := s; resp_content_type := "application/json"; resp_body := JsonBody v |}.

(** ** route.ts *)

(** The inbound request, its body having arrived, as the handler uses it:
    the outcome of [req.json()] ([None]: the body does not decode) and
    [req.signal]. *)
Record NextRequest : Type := mkNextRequest {
  req_body : option JSON;
  req_signal : AbortSignal
}.

(** [await req.json()] *)
Definition req_json (rt : Runtime) (req : NextRequest) : Result JSON :=
  match req_body req with
  | Some data => Ok data
  | None => Throw {| name := "SyntaxError"; err_message := error_text rt BadJson |}
  end.

(** JavaScript values that may be [undefined] ([None]), with [a && b] and
    [a || b]. *)
Definition truthy_opt (v : option JSON) : bool :=
  match v with
  | Some x => truthy x
  | None => false
  end.

Definition js_and (a b : option JSON) : option JSON :=
  if truthy_opt a then b else a.

Definition js_or (a b : option JSON) : option JSON :=
  if truthy_opt a then a else b.

(** An object literal as [JSON.stringify] writes it: a member whose value
    is [undefined] is left out. *)
Fixpoint js_object (members : list (string * option JSON)) : list (string * JSON) :=
  match members with
  | [] => []
  | (k, Some v) :: rest => (k, v) :: js_object rest
  | (_, None) :: rest => js_object rest
  end.

(** A number in a template literal. *)
Definition decimal (n : N) : string :=
  NilEmpty.string_of_uint (N.to_uint n).

(** [String(v)] *)
Fixpoint js_String (v : JSON) : string :=
  match v with
  | JNull => "null"
  | JBool true => "true"
  | JBool false => "false"
  | JNumber n => NilZero.string_of_int (Z.to_int n)
  | JString s => s
  | JArray items =>
      String.concat ","
        (map (fun x => match x with JNull => "" | _ => js_String x end) items)
  | JObject _ => "[object Object]"
  end.

(** [(payload && payload.error) || (payload && payload.message) ||
    `Upstream error ${status}`] *)
Definition upstream_error_message (payload : JSON) (s : N) : option JSON :=
  js_or (js_or (js_and (Some payload) (prop payload "error"))
               (js_and (Some payload) (prop payload "message")))
        (Some (JString ("Upstream error " ++ decimal s)%string)).

(** [process.env.API_URL] is missing or empty: [!API_URL]. *)
Definition unset (v : option string) : bool :=
  match v with
  | Some s => String.eqb s ""
  | None => true
  end.

(** [a || b] on strings. *)
Definition or_else (a b : string) : string :=
  if String.eqb a "" then b else a.

Definition timeout_ms : N := 20000.

(** [AbortSignal.any([req.signal, AbortSignal.timeout(20_000)])] *)
Definition relay_signal (rt : Runtime) (req : NextRequest) : AbortSignal :=
  AbortSignal_any [req_signal req; AbortSignal_timeout rt timeout_ms].

(** The one call the handler makes, for the validated request [parsed]. *)
Definition upstream_call (rt : Runtime) (base : string) (req : NextRequest)
  (parsed : ChatRequest) : FetchCall :=
  {| url := (base ++ "/chat")%string;
     method := "POST";
     headers := [("Content-Type", "application/json")];
     body := ChatRequest_json parsed;
     cache := "no-store";
     signal := relay_signal rt req |}.

(** [res.headers.get("content-type") || ""] *)
Definition contentType_of (res : UpstreamResponse) : string :=
  or_else (match content_type res with Some c => c | None => "" end) "".

(** [isJson ? await res.json().catch(() => null) : await res.text()] *)
Definition read_payload (rt : Runtime) (sig : AbortSignal) (res : UpstreamResponse)
  : M JSON :=
  if includes "application/json" (contentType_of res)
  then catch_with JNull (res_json rt sig res)
  else text <- res_text sig res ;; ret (JString text).

(** The handler from the point where the payload has been read: the
    upstream's failure is passed on with its status, a JSON success is
    validated again, anything else is passed through as text. *)
Definition respond (rt : Runtime) (res : UpstreamResponse) (payload : JSON)
  : M NextResponse :=
  let contentType := contentType_of res in
  let isJson := includes "application/json" contentType in
  if negb (res_ok res) then
    lift (NextResponse_json rt
            (JObject (js_object [("error", upstream_error_message payload (res_status res))]))
            (res_status res))
  else if isJson then
    validated <- lift (parse rt chatResponseSchema payload) ;;
    lift (NextResponse_json rt (ChatResponse_json validated) 200)
  else
    ret {| status := 200;
           resp_content_type := or_else contentType "text/plain";
           resp_body := TextBody (js_String payload) |}.

(** The body of the [try] block, for the configured base URL [base]. *)
Definition relay (rt : Runtime) (base : string) (net : Network) (req : NextRequest)
  : M NextResponse :=
  data <- lift (req_json rt req) ;;
  match safeParse chatRequestSchema data with
  | Failure issues =>
      lift (NextResponse_json rt
              (JObject [("error", JString "Invalid request data");
                        ("issues", JArray (map (issue_json rt) issues))])
              400)
  | Success parsed =>
      res <- fetch net (upstream_call rt base req parsed) ;;
      payload <- read_payload rt (relay_signal rt req) res ;;
      respond rt res payload
  end.

(** The [catch] block. *)
Definition on_error (rt : Runtime) (err : JsError) : M NextResponse :=
  if String.eqb (name err) "AbortError" || String.eqb (name err) "TimeoutError" then
    lift (NextResponse_json rt (JObject [("error", JString "Upstream request timed out")]) 504)
  else
    lift (NextResponse_json rt
            (JObject [("error", JString "[API_CHAT] Unexpected error");
                      ("detail", JString (err_message err))])
            500).

(** [POST(req)], with the module-level [API_URL] and the network as
    parameters.  The result is the trace of network events and the
    response. *)
Definition POST (rt : Runtime) (API_URL : option string) (net : Network)
  (req : NextRequest) : M NextResponse :=
  match API_URL with
  | Some base =>
      if unset API_URL then
        lift (NextResponse_json rt (JObject [("error", JString "API_URL not found")]) 500)
      else
        try_catch (relay rt base net req) (on_error rt)
  | None =>
      lift (NextResponse_json rt (JObject [("error", JString "API_URL not found")]) 500)
  end.

(** The calls issued in a trace. *)
Definition calls (t : list Event) : list FetchCall :=
  flat_map (fun e => match e with Fetched c => [c] | Aborted _ _ => [] end) t.

(** ** ChatPanel.tsx *)

(** The white space and line terminators of [String.prototype.trim], by
    the length of their UTF-8 form.  One byte: U+0009 to U+000D and
    U+0020. *)
Definition is_space (c : ascii) : bool :=
  let n := N_of_ascii c in
  ((9 <=? n) && (n <=? 13)) || (n =? 32).

(** Two bytes: U+00A0. *)
Definition is_space2 (c1 c2 : ascii) : bool :=
  (N_of_ascii c1 =? 194) && (N_of_ascii c2 =? 160).

(** Three bytes: U+1680, U+2000 to U+200A, U+2028, U+2029, U+202F, U+205F,
    U+3000 and U+FEFF. *)
Definition is_space3 (c1 c2 c3 : ascii) : bool :=
  let n1 := N_of_ascii c1 in
  let n2 := N_of_ascii c2 in
  let n3 := N_of_ascii c3 in
  ((n1 =? 225) && (n2 =? 154) && (n3 =? 128)) ||
  ((n1 =? 226) && (n2 =? 128) &&
   (((128 <=? n3) && (n3 <=? 138)) || (n3 =? 168) || (n3 =? 169) || (n3 =? 175))) ||
  ((n1 =? 226) && (n2 =? 129) && (n3 =? 159)) ||
  ((n1 =? 227) && (n2 =? 128) && (n3 =? 128)) ||
  ((n1 =? 239) && (n2 =? 187) && (n3 =? 191)).

(** [s.trimStart()] *)
Fixpoint trimStart (s : string) : string :=
  match s with
  | EmptyString => EmptyString
  | String c1 rest1 =>
      if is_space c1 then trimStart rest1
      else
        match rest1 with
        | EmptyString => s
        | String c2 rest2 =>
            if is_space2 c1 c2 then trimStart rest2
            else
              match rest2 with
              | EmptyString => s
              | String c3 rest3 =>
                  if is_space3 c1 c2 c3 then trimStart rest3 else s
              end
        end
  end.

(** [s.trimEnd()]: the text is cut where nothing but white space
    follows. *)
Fixpoint trimEnd (s : string) : string :=
  match s with
  | EmptyString => EmptyString
  | String c rest =>
      if String.eqb (trimStart s) "" then EmptyString else String c (trimEnd rest)
  end.

(** [s.trim()] *)
Definition trim (s : string) : string := trimEnd (trimStart s).

(** The component's state: the four [useState] cells. *)
Record PanelState : Type := mkPanelState {
  messages : list ChatMessage;
  input : string;
  loading : bool;
  error : option string
}.

Definition system_message : ChatMessage :=
  {| role := system; content := "You are a helpful assistant." |}.

(** The state on mount. *)
Definition initial_state : PanelState :=
  {| messages := [system_message]; input := ""; loading := false; error := None |}.

Definition is_system (m : ChatMessage) : bool :=
  match role m with
  | system => true
  | _ => false
  end.

(** [sendMessage] up to its [await]: nothing happens on blank input or
    while a turn is in flight; otherwise the user's message is appended
    and the request is built from the messages of the current render. *)
Definition sendMessage_start (s : PanelState) : option (PanelState * ChatRequest) :=
  let trimmed := trim (input s) in
  if String.eqb trimmed "" || loading s then None
  else
    let userMsg := {| role := user; content := trimmed |} in
    let history := filter (fun m => negb (is_system m)) (messages s) in
    Some ({| messages := messages s ++ [userMsg];
             input := "";
             loading := true;
             error := None |},
          {| message := trimmed; history := Some history |}).

(** What the panel's [fetch("/api/chat")] settles with. *)
Inductive ClientOutcome : Type :=
| Replied (res : NextResponse)
| Rejected (err : JsError).

(** [res.json()] on the relay's response, as the panel calls it: the
    value a JSON body was written from, and whatever [JSON.parse] makes of
    a text body, of whichever content type. *)
Definition client_json (rt : Runtime) (res : NextResponse) : Result JSON :=
  match resp_body res with
  | JsonBody v => Ok v
  | TextBody text =>
      match json_parse rt text with
      | Some v => Ok v
      | None => Throw {| name := "SyntaxError"; err_message := error_text rt BadJson |}
      end
  end.

Definition js_String_opt (v : option JSON) : string :=
  match v with
  | Some x => js_String x
  | None => "undefined"
  end.

(** [String(data.reply ?? "")]; reading a member of [null] throws. *)
Definition reply_text (rt : Runtime) (data : JSON) : Result string :=
  match data with
  | JNull => Throw {| name := "TypeError"; err_message := error_text rt NotAnObject |}
  | _ =>
      match prop data "reply" with
      | None | Some JNull => Ok ""
      | Some v => Ok (js_String v)
      end
  end.

Definition setError (e : option string) (s : PanelState) : PanelState :=
  {| messages := messages s; input := input s; loading := loading s; error := e |}.

Definition setLoading (b : bool) (s : PanelState) : PanelState :=
  {| messages := messages s; input := input s; loading := b; error := error s |}.

Definition setInput (v : string) (s : PanelState) : PanelState :=
  {| messages := messages s; input := v; loading := loading s; error := error s |}.

(** [setMessages((prev) => [...prev, m])] *)
Definition appendMessage (m : ChatMessage) (s : PanelState) : PanelState :=
  {| messages := messages s ++ [m]; input := input s; loading := loading s; error := error s |}.

(** [sendMessage] from its [await] on, for the outcome [o] of the call. *)
Definition sendMessage_settle (rt : Runtime) (o : ClientOutcome) (s : PanelState)
  : PanelState :=
  setLoading false
    match o with
    | Rejected err => setError (Some (err_message err)) s
    | Replied res =>
        if negb ((200 <=? status res) && (status res <=? 299)) then
          let payload := match client_json rt res with Ok v => v | _ => JNull end in
          let msg :=
            js_or (js_or (js_and (Some payload) (prop payload "error"))
                         (js_and (Some payload) (prop payload "message")))
                  (Some (JString ("Request failed with status " ++ decimal (status res))%string)) in
          setError (Some (js_String_opt msg)) s
        else
          match client_json rt res with
          | Ok data =>
              match reply_text rt data with
              | Ok text => appendMessage {| role := assistant; content := text |} s
              | Throw err => setError (Some (err_message err)) s
              | Pending => s
              end
          | Throw err => setError (Some (err_message err)) s
          | Pending => s
          end
    end.

Definition resetChat (s : PanelState) : PanelState :=
  {| messages := [system_message]; input := ""; loading := loading s; error := None |}.

(** One transition of the panel: typing, starting a turn, a pending turn
    settling, or a reset. *)
Inductive step (rt : Runtime) : PanelState -> PanelState -> Prop :=
| step_input : forall v s, step rt s (setInput v s)
| step_send : forall s s' req, sendMessage_start s = Some (s', req) -> step rt s s'
| step_settle : forall o s, step rt s (sendMessage_settle rt o s)
| step_reset : forall s, step rt s (resetChat s).

(** The states the panel can be in after mount. *)
Inductive reachable (rt : Runtime) : PanelState -> Prop :=
| reach_mount : reachable rt initial_state
| reach_step : forall s s', reachable rt s -> step rt s s' -> reachable rt s'.

(** The conversation keeps its leading system message, and nothing after
    it has the system role. *)
Definition led_by_system (s : PanelState) : Prop :=
  exists rest,
    messages s = system_message :: rest /\
    Forall (fun m => role m <> system) rest.

(** ** The envelopes and the notions the statements below use *)

(** [{ error: "Invalid request data", issues }], status 400. *)
Definition invalid_envelope (rt : Runtime) (issues : list Issue) : NextResponse :=
  {| status := 400;
     resp_content_type := "application/json";
     resp_body := JsonBody (JObject [("error", JString "Invalid request data");
                                     ("issues", JArray (map (issue_json rt) issues))]) |}.

(** [{ error: m }] with status [s]. *)
Definition error_envelope (s : N) (m : JSON) : NextResponse :=
  {| status := s;
     resp_content_type := "application/json";
     resp_body := JsonBody (JObject [("error", m)]) |}.

(** [{ error: label, detail: msg }], status 500. *)
Definition unexpected_envelope (label msg : string) : NextResponse :=
  {| status := 500;
     resp_content_type := "application/json";
     resp_body := JsonBody (JObject [("error", JString label); ("detail", JString msg)]) |}.

(** [{ error: "API_URL not found" }], status 500. *)
Definition missing_url_envelope : NextResponse :=
  error_envelope 500 (JString "API_URL not found").

(** [{ error: "Upstream request timed out" }], status 504. *)
Definition timeout_envelope : NextResponse :=
  error_envelope 504 (JString "Upstream request timed out").

(** [{ reply, handled }], status 200. *)
Definition success_envelope (r : ChatResponse) : NextResponse :=
  {| status := 200;
     resp_content_type := "application/json";
     resp_body := JsonBody (ChatResponse_json r) |}.

(** An issue of [issues] points at the field with path [p]. *)
Definition mentions (p : list PathSeg) (issues : list Issue) : Prop :=
  exists i, In i issues /\ path i = p.

(** A history entry as the data model wants it: an object whose [role] is
    one of the three roles and whose [content] is a non-empty string. *)
Definition valid_entry (e : JSON) : bool :=
  match e with
  | JObject members =>
      match assoc "role" members, assoc "content" members with
      | Some (JString r), Some (JString c) =>
          match enum_value roles r with
          | Some _ => negb (String.eqb c "")
          | None => false
          end
      | _, _ => false
      end
  | _ => false
  end.

(** The optional [history] member is well formed: absent, or an array of
    valid entries. *)
Definition well_formed_history (h : option JSON) : bool :=
  match h with
  | None => true
  | Some (JArray items) => forallb valid_entry items
  | Some _ => false
  end.

(** The [role] of an entry is not one of the three roles. *)
Definition invalid_role (entry : list (string * JSON)) : bool :=
  match assoc "role" entry with
  | Some (JString r) =>
      match enum_value roles r with
      | Some _ => false
      | None => true
      end
  | _ => true
  end.

(** A [ChatRequest] value that satisfies the schema: no history entry has
    empty content. *)
Definition valid_request (r : ChatRequest) : bool :=
  match history r with
  | Some h => forallb (fun m => negb (String.eqb (content m) "")) h
  | None => true
  end.

(** The handler answered with the validation failure and the network saw
    nothing. *)
Definition rejected_before_upstream (rt : Runtime) (out : M NextResponse) : Prop :=
  exists issues, issues <> [] /\ out = ([], Ok (invalid_envelope rt issues)).

(** The signal the call is made under has not fired by time [t]. *)
Definition quiet_until (rt : Runtime) (req : NextRequest) (t : N) : Prop :=
  fired_by (relay_signal rt req) t = false.

(** A status [NextResponse.json] accepts. *)
Definition sendable (s : N) : bool :=
  (200 <=? s) && (s <=? 599) && negb (null_body_status s).

(** The payload the handler reads from a response when no signal fires. *)
Definition payload_of (res : UpstreamResponse) : JSON :=
  if includes "application/json" (contentType_of res) then
    match json_body res with
    | Some v => v
    | None => JNull
    end
  else JString (text_body res).

(** The error message of a failed upstream response as the specification
    words it: the [error] member if present, else the [message] member if
    present, else the synthesized text. *)
Definition claimed_error_message (payload : JSON) (s : N) : JSON :=
  match prop payload "error" with
  | Some v => v
  | None =>
      match prop payload "message" with
      | Some v => v
      | None => JString ("Upstream error " ++ decimal s)%string
      end
  end.

(** The same with "present" read as "present and truthy". *)
Definition truthy_error_message (payload : JSON) (s : N) : JSON :=
  match prop payload "error" with
  | Some v =>
      if truthy v then v
      else match prop payload "message" with
           | Some w => if truthy w then w else JString ("Upstream error " ++ decimal s)%string
           | None => JString ("Upstream error " ++ decimal s)%string
           end
  | None =>
      match prop payload "message" with
      | Some w => if truthy w then w else JString ("Upstream error " ++ decimal s)%string
      | None => JString ("Upstream error " ++ decimal s)%string
      end
  end.

(** The forwarded entry [o] has the role and the content of the entry [e]
    that came in, and no other member. *)
Definition stripped_entry (e o : JSON) : Prop :=
  keys o = ["role"; "content"] /\
  prop o "role" = prop e "role" /\
  prop o "content" = prop e "content".

(** A schema that never fails without saying why. *)
Definition speaks {A} (s : Schema A) : Prop :=
  forall input issues, s input = Failure issues -> issues <> [].

(** The upstream has not settled the call by time [ts]. *)
Definition unsettled_at (o : Upstream) (ts : N) : Prop :=
  match o with
  | Responds t _ => ts <= t
  | Fails t _ => ts <= t
  | Silent => True
  end.

(** The error is one the [catch] block reports as a timeout. *)
Definition abort_named (e : JsError) : Prop :=
  name e = "AbortError" \/ name e = "TimeoutError".

(** When the composite signal of a request fires: at the caller's time or
    after the fixed timeout, whichever comes first. *)
Definition abort_time (req : NextRequest) : N :=
  match fires_at (req_signal req) with
  | Some tc => N.min tc timeout_ms
  | None => timeout_ms
  end.

(** ** Sample inputs *)

(** A runtime to run the handler on; of the JSON texts its [JSON.parse]
    reads the three literals. *)
Definition sample_runtime : Runtime :=
  {| issue_json :=
       fun i => JObject [("message",
                          JString (match custom_message i with
                                   | Some m => m
                                   | None => "Invalid input"
                                   end))];
     error_text := fun _ => "runtime error";
     json_parse :=
       fun text =>
         if String.eqb text "null" then Some JNull
         else if String.eqb text "true" then Some (JBool true)
         else if String.eqb text "false" then Some (JBool false)
         else None |}.

(** The network whose upstream answers every call with [res], the headers
    arriving at time [t]. *)
Definition answers (t : N) (res : UpstreamResponse) : Network :=
  fun _ => Responds t res.

(** An upstream response of content type application/json with body [v],
    complete at 10 ms. *)
Definition json_response (s : N) (v : JSON) : UpstreamResponse :=
  {| res_status := s; content_type := Some "application/json";
     body_at := 10; json_body := Some v; text_body := "" |}.

(** An upstream that sends its headers but whose JSON body is still on its
    way when the timeout fires. *)
Definition stalled_response : UpstreamResponse :=
  {| res_status := 200; content_type := Some "application/json";
     body_at := 30000; json_body := None; text_body := "" |}.

(** A request with body [data] whose caller never cancels. *)
Definition plain_request (data : JSON) : NextRequest :=
  {| req_body := Some data; req_signal := never |}.

Definition paris : JSON :=
  JObject [("reply", JString "Paris"); ("handled", JBool true)].

Definition overloaded : JSON :=
  JObject [("error", JString "overloaded")].

Definition empty_message_request : NextRequest :=
  plain_request (JObject [("message", JString "")]).

Definition hello_data : JSON :=
  JObject [("message", JString "hello")].

Definition hello_parsed : ChatRequest :=
  {| message := "hello"; history := None |}.

Definition hello_request : NextRequest := plain_request hello_data.

Definition api : option string := Some "http://api".

Definition bot_entry : list (string * JSON) :=
  [("role", JString "bot"); ("content", JString "")].

Definition bad_history_data : JSON :=
  JObject [("message", JString "hi"); ("history", JArray [JObject bot_entry])].

Definition blank_error : JSON :=
  JObject [("error", JString "")].

Definition refused : JsError :=
  {| name := "TypeError"; err_message := "fetch failed" |}.

Definition hung_up : JsError :=
  {| name := "ResponseAborted"; err_message := "client went away" |}.

(** A request whose caller gives up 5 ms in, with a reason of its own. *)
Definition hangup_request : NextRequest :=
  {| req_body := Some hello_data;
     req_signal := {| fires_at := Some 5; reason := hung_up |} |}.

(** The same with the default reason of [AbortController.abort()]. *)
Definition cancelled_request : NextRequest :=
  {| req_body := Some hello_data;
     req_signal := {| fires_at := Some 5; reason := reason never |} |}.

(** A request and an upstream answer that carry members outside the
    schemas. *)
Definition chatty_data : JSON :=
  JObject [("debug", JBool true);
           ("history", JArray [JObject [("content", JString "hi"); ("id", JNumber 7);
                                        ("role", JString "user")]]);
           ("message", JString "hello")].

Definition chatty_parsed : ChatRequest :=
  {| message := "hello"; history := Some [{| role := user; content := "hi" |}] |}.

Definition chatty_answer : JSON :=
  JObject [("handled", JBool true); ("score", JNumber 3); ("reply", JString "Paris")].

(** The panel after the user has typed a question. *)
Definition typed_state : PanelState := setInput "  Where?  " initial_state.


(** ** lib/api.ts *)

(** [s.replace(/\/$/, "")]: a slash at the very end of [s] is removed. *)
Fixpoint strip_trailing_slash (s : string) : string :=
  match s with
  | EmptyString => EmptyString
  | String c rest =>
      match rest with
      | EmptyString => if Ascii.eqb c "/" then EmptyString else s
      | String _ _ => String c (strip_trailing_slash rest)
      end
  end.

(** [(process.env.NEXT_PUBLIC_API_URL || "").replace(/\/$/, "")] *)
Definition API_BASE (env : option string) : string :=
  strip_trailing_slash (match env with Some s => s | None => "" end).

(** The third argument of [postJSON]; a field left out is [None]. *)
Record FetchOptions : Type := mkFetchOptions {
  timeoutMs : option N;
  extra_headers : option (list (string * string))
}.

(** The members of an object are listed in the order of its own property
    keys: first the names that are array indices, by their number, then the
    other names as they were added.  A name is an array index when it is
    the decimal form, without sign or leading zero, of an integer below
    2^32 - 1. *)
Definition array_index (k : string) : option N :=
  match NilEmpty.uint_of_string k with
  | Some u =>
      let n := N.of_uint u in
      if String.eqb (decimal n) k && (n <? 4294967295) then Some n else None
  | None => None
  end.

Definition has_member (k : string) (o : list (string * string)) : bool :=
  existsb (fun kv => String.eqb k (fst kv)) o.

(** An existing member keeps its place and takes the new value. *)
Fixpoint replace_member (k v : string) (o : list (string * string))
  : list (string * string) :=
  match o with
  | [] => []
  | (k', v') :: rest =>
      if String.eqb k k' then (k, v) :: rest else (k', v') :: replace_member k v rest
  end.

(** A new member named by the array index [n] goes after the indices
    below [n]. *)
Fixpoint insert_index (n : N) (k v : string) (o : list (string * string))
  : list (string * string) :=
  match o with
  | [] => [(k, v)]
  | (k', v') :: rest =>
      match array_index k' with
      | Some n' => if n' <? n then (k', v') :: insert_index n k v rest else (k, v) :: o
      | None => (k, v) :: o
      end
  end.

(** [{ ...o, [k]: v }] *)
Definition set_member (k v : string) (o : list (string * string)) : list (string * string) :=
  if has_member k o then replace_member k v o
  else
    match array_index k with
    | Some n => insert_index n k v o
    | None => o ++ [(k, v)]
    end.

(** [{ ...a, ...b }] *)
Definition spread (a b : list (string * string)) : list (string * string) :=
  fold_left (fun o kv => set_member (fst kv) (snd kv) o) b a.

(** The reason of [controller.abort()] called without an argument. *)
Definition abort_error : JsError :=
  {| name := "AbortError"; err_message := "This operation was aborted" |}.

(** The signal of a controller that [setTimeout] aborts after [ms]. *)
Definition timer_signal (ms : N) : AbortSignal :=
  {| fires_at := Some ms; reason := abort_error |}.

(** [new Error(message)] *)
Definition new_Error (msg : string) : JsError :=
  {| name := "Error"; err_message := msg |}.

(** The call [postJSON] makes. *)
Definition postJSON_call (env : option string) (pathname : string) (body : JSON)
  (opts : FetchOptions) : FetchCall :=
  {| url := (API_BASE env ++ pathname)%string;
     method := "POST";
     headers := spread [("Content-Type", "application/json")]
                       (match extra_headers opts with Some h => h | None => [] end);
     body := body;
     cache := "default";
     signal := timer_signal (match timeoutMs opts with Some ms => ms | None => 20000 end) |}.

(** [(isError && (isError.error || isError.message)) ||
    `Request failed with status ${status}`] *)
Definition request_failed_message (isError : JSON) (s : N) : option JSON :=
  js_or (js_and (Some isError) (js_or (prop isError "error") (prop isError "message")))
        (Some (JString ("Request failed with status " ++ decimal s)%string)).

(** [postJSON(path, body, options)], with the environment variable and the
    network as parameters: the decoded JSON or the text of a 2xx answer,
    or a thrown error. *)
Definition postJSON (rt : Runtime) (env : option string) (net : Network)
  (pathname : string) (body : JSON) (opts : FetchOptions) : M JSON :=
  if String.eqb (API_BASE env) "" then
    lift (Throw (new_Error "NEXT_PUBLIC_API_URL is not set"))
  else
    let call := postJSON_call env pathname body opts in
    try_catch
      (res <- fetch net call ;;
       let isJson := includes "application/json" (contentType_of res) in
       if negb (res_ok res) then
         isError <- (if isJson then catch_with JNull (res_json rt (signal call) res)
                     else ret JNull) ;;
         lift (Throw (new_Error
                        (js_String_opt (request_failed_message isError (res_status res)))))
       else if isJson then res_json rt (signal call) res
       else text <- res_text (signal call) res ;; ret (JString text))
      (fun error =>
         if String.eqb (name error) "AbortError"
         then lift (Throw (new_Error "Request timed out"))
         else lift (Throw error)).

(** ** ChatInput.tsx *)

(** The key event as the handler reads it. *)
Record KeyboardEvent : Type := mkKeyboardEvent {
  key : string;
  shiftKey : bool
}.

(** [handleKeyDown]: whether the event is swallowed and [onSubmit] is
    called. *)
Definition handleKeyDown (e : KeyboardEvent) : bool :=
  String.eqb (key e) "Enter" && negb (shiftKey e).

(** The [disabled] attribute of the Send button:
    [loading || !value.trim()]. *)
Definition send_disabled (value : string) (loading : bool) : bool :=
  loading || String.eqb (trim value) "".

(** ** MessageItem.tsx, MessageList.tsx *)

(** One rendered list item: its React key, the avatar's text and the text
    shown. *)
Record Item : Type := mkItem {
  item_key : nat;
  avatar : string;
  shown : string
}.

(** [MessageItem], under the key the list gives it. *)
Definition MessageItem (idx : nat) (m : ChatMessage) : Item :=
  let isAssistant := match role m with assistant => true | _ => false end in
  {| item_key := idx;
     avatar := if isAssistant then "AI" else "You";
     shown := content m |}.

(** [l.map((m, idx) => f(idx, m))], counting from [i]. *)
Fixpoint map_indexed {A B} (f : nat -> A -> B) (i : nat) (l : list A) : list B :=
  match l with
  | [] => []
  | a :: rest => f i a :: map_indexed f (S i) rest
  end.

(** [MessageList]: the items of the messages that are not system
    messages. *)
Definition MessageList (msgs : list ChatMessage) : list Item :=
  map_indexed MessageItem 0 (filter (fun m => negb (is_system m)) msgs).

(** ** The panel and the route together *)

(** The request the route sees when the panel posts [r] to [/api/chat]:
    the body is [JSON.stringify({ message, history })]. *)
Definition panel_request (r : ChatRequest) (caller : AbortSignal) : NextRequest :=
  {| req_body := Some (ChatRequest_json r); req_signal := caller |}.

(** One turn from the panel's side when the hop to the route itself goes
    through: [sendMessage] up to its [await], the route's handler, and
    [sendMessage] from the [await] on.  [None]: the turn does not start. *)
Definition turn (rt : Runtime) (API_URL : option string) (net : Network)
  (caller : AbortSignal) (s : PanelState) : option (Result PanelState) :=
  match sendMessage_start s with
  | None => None
  | Some (s', r) =>
      Some match snd (POST rt API_URL net (panel_request r caller)) with
           | Ok resp => Ok (sendMessage_settle rt (Replied resp) s')
           | Throw e => Throw e
           | Pending => Pending
           end
  end.

(** ** The request body on its way *)

(** What [await req.json()] meets: the body of the request arrives in full,
    and then decodes or not as [req] has it, or it never does. *)
Inductive Inbound : Type :=
| Arrives (req : NextRequest)
| Stalls.

(** [POST(req)] from the moment the request's headers are in.  The
    handler reads the body before it builds its signal, so nothing bounds
    the wait for a body that stalls. *)
Definition POST_awaiting (rt : Runtime) (API_URL : option string) (net : Network)
  (inb : Inbound) : M NextResponse :=
  match inb with
  | Arrives req => POST rt API_URL net req
  | Stalls =>
      if unset API_URL then
        lift (NextResponse_json rt (JObject [("error", JString "API_URL not found")]) 500)
      else ([], Pending)
  end.

(** ** Notions the further statements use *)

(** The JSON entry [e] carries the role and the content of [m], and the
    content is not empty. *)
Definition entry_matches (e : JSON) (m : ChatMessage) : Prop :=
  prop e "role" = Some (JString (Role_name (role m))) /\
  prop e "content" = Some (JString (content m)) /\
  content m <> "".

(** The JSON value [data] carries the message of [r] and, entry by entry
    and in the same order, the history of [r]. *)
Definition request_matches (data : JSON) (r : ChatRequest) : Prop :=
  prop data "message" = Some (JString (message r)) /\
  match prop data "history", history r with
  | None, None => True
  | Some (JArray items), Some h => Forall2 entry_matches items h
  | _, _ => False
  end.

(** The JSON value [v] carries the reply and the flag of [r]. *)
Definition response_matches (v : JSON) (r : ChatResponse) : Prop :=
  prop v "reply" = Some (JString (reply r)) /\
  prop v "handled" = Some (JBool (handled r)).

(** A path into a request whose history has [n] entries: the message, the
    history, an entry of the history, or the role or content of one. *)
Definition request_path (n : nat) (p : list PathSeg) : Prop :=
  p = [Key "message"] \/
  p = [Key "history"] \/
  exists i, (i < n)%nat /\
    (p = [Key "history"; Index i] \/
     p = [Key "history"; Index i; Key "role"] \/
     p = [Key "history"; Index i; Key "content"]).

(** The number of entries of the [history] member, if it is an array. *)
Definition history_length (data : JSON) : nat :=
  match prop data "history" with
  | Some (JArray items) => length items
  | _ => 0%nat
  end.

(** The panel gives [sendMessage] to the input as [onSubmit]: the Enter key
    calls it whatever the state of the button, a click only while the
    button is enabled. *)
Definition ChatInput_keydown (e : KeyboardEvent) (s : PanelState)
  : option (PanelState * ChatRequest) :=
  if handleKeyDown e then sendMessage_start s else None.

Definition ChatInput_click (s : PanelState) : option (PanelState * ChatRequest) :=
  if send_disabled (input s) (loading s) then None else sendMessage_start s.

(** [res.ok] on the route's response. *)
Definition replied_ok (res : NextResponse) : bool :=
  (200 <=? status res) && (status res <=? 299).

(** No user message is empty. *)
Definition users_spoke (msgs : list ChatMessage) : Prop :=
  Forall (fun m => role m = user -> content m <> "") msgs.

(** The value the member list [o] gives the name [k], the last one if it
    lists the name more than once, and [d] if it does not list it. *)
Fixpoint member_or (k d : string) (o : list (string * string)) : string :=
  match o with
  | [] => d
  | (k', v') :: rest => member_or k (if String.eqb k k' then v' else d) rest
  end.

(** The member list [o] holds exactly one member named [k], with value
    [v], and only array indices are listed before it. *)
Definition sole_member (k v : string) (o : list (string * string)) : Prop :=
  exists before after,
    o = before ++ (k, v) :: after /\
    Forall (fun kv => array_index (fst kv) <> None) before /\
    Forall (fun kv => fst kv <> k) (before ++ after).

(** No assistant message is empty. *)
Definition assistant_spoke (msgs : list ChatMessage) : Prop :=
  Forall (fun m => role m = assistant -> content m <> "") msgs.

(** ** Further sample inputs *)

(** A request whose body is not JSON. *)
Definition garbled_request : NextRequest :=
  {| req_body := None; req_signal := never |}.

(** An upstream answer that is not JSON. *)
Definition html_response : UpstreamResponse :=
  {| res_status := 201; content_type := Some "text/html";
     body_at := 10; json_body := None; text_body := "<p>hi</p>" |}.

(** U+00A0, U+2028 and U+FEFF in UTF-8. *)
Definition no_break_space : string := String "194" (String "160" "").

Definition line_separator : string := String "226" (String "128" (String "168" "")).

Definition byte_order_mark : string := String "239" (String "187" (String "191" "")).

(** Options whose headers name two array indices and set a content type
    of their own. *)
Definition numbered_options : FetchOptions :=
  {| timeoutMs := None;
     extra_headers := Some [("7", "g"); ("X-Id", "b"); ("Content-Type", "text/plain");
                            ("0", "c"); ("07", "z")] |}.

Definition default_options : FetchOptions :=
  {| timeoutMs := None; extra_headers := None |}.

Definition public_env : option string := Some "http://api/".

Definition enter_key : KeyboardEvent :=
  {| key := "Enter"; shiftKey := false |}.

(** The panel after the first turn has started, and the request of that
    turn. *)
Definition first_turn_state : PanelState :=
  {| messages := [system_message; {| role := user; content := "Where?" |}];
     input := ""; loading := true; error := None |}.

Definition first_turn_request : ChatRequest :=
  {| message := "Where?"; history := Some [] |}.

(** A conversation that holds an empty reply. *)
Definition poisoned_state : PanelState :=
  {| messages := [system_message;
                  {| role := user; content := "Where?" |};
                  {| role := assistant; content := "" |}];
     input := "Why?"; loading := false; error := None |}.
(** * Properties *)

(** ** The validator *)

(** Every failure names at least one issue. *)
Lemma both_speaks {A B C} (mk : A -> B -> C) ra rb issues :
  (forall ia, ra = Failure ia -> ia <> []) ->
  (forall ib, rb = Failure ib -> ib <> []) ->
  both mk ra rb = Failure issues -> issues <> [].
Proof.
  intros Ha Hb. destruct ra as [a|ia], rb as [b|ib]; simpl; intros H; inversion H; subst.
  - now apply Hb.
  - now apply Ha.
  - intros E. apply app_eq_nil in E. destruct E as [E _]. now apply (Ha ia).
Qed.

Lemma at_path_speaks {A} seg (r : SafeParse A) issues :
  (forall i, r = Failure i -> i <> []) ->
  at_path seg r = Failure issues -> issues <> [].
Proof.
  intros Hr. destruct r as [a|i]; simpl; intros H; inversion H; subst.
  intros E. apply map_eq_nil in E. now apply (Hr i).
Qed.

Lemma z_string_speaks : speaks z_string.
Proof.
  intros [[| | |s| |]|] issues H; simpl in H; inversion H; discriminate.
Qed.

Lemma z_boolean_speaks : speaks z_boolean.
Proof.
  intros [[| b | | | |]|] issues H; simpl in H; inversion H; discriminate.
Qed.

Lemma z_min_speaks n msg s : speaks s -> speaks (z_min n msg s).
Proof.
  intros Hs input issues. unfold z_min.
  destruct (s input) as [x|i] eqn:E.
  - destruct (Nat.ltb _ _); intros H; inversion H; discriminate.
  - intros H; inversion H; subst. now apply (Hs input).
Qed.

Lemma z_enum_speaks {A} (values : list (string * A)) : speaks (z_enum values).
Proof.
  intros [[| | |s| |]|] issues H; simpl in H; try (inversion H; discriminate).
  destruct (enum_value values s); inversion H; discriminate.
Qed.

Lemma z_object2_speaks {A B C} (mk : A -> B -> C) k1 s1 k2 s2 :
  speaks s1 -> speaks s2 -> speaks (z_object2 mk k1 s1 k2 s2).
Proof.
  intros H1 H2 [[| | | | |members]|] issues H; simpl in H; try (inversion H; discriminate).
  apply both_speaks in H; trivial; intros i Hi.
  - apply at_path_speaks in Hi; trivial. intros j. apply H1.
  - apply at_path_speaks in Hi; trivial. intros j. apply H2.
Qed.

Lemma parse_items_speaks {A} (elem : Schema A) :
  speaks elem -> forall items i issues,
  parse_items elem i items = Failure issues -> issues <> [].
Proof.
  intros He. induction items as [|v rest IH]; intros i issues H; simpl in H.
  - discriminate.
  - apply both_speaks in H; trivial.
    + intros ia Hia. apply at_path_speaks in Hia; trivial. intros j. apply He.
    + intros ib. apply IH.
Qed.

Lemma z_array_speaks {A} (elem : Schema A) : speaks elem -> speaks (z_array elem).
Proof.
  intros He [[| | | |items|]|] issues H; simpl in H; try (inversion H; discriminate).
  now apply parse_items_speaks in H.
Qed.

Lemma z_optional_speaks {A} (s : Schema A) : speaks s -> speaks (z_optional s).
Proof.
  intros Hs [v|] issues H; simpl in H; [|discriminate].
  destruct (s (Some v)) eqn:E; inversion H; subst. now apply (Hs (Some v)).
Qed.

Create HintDb schema.
#[local] Hint Resolve z_string_speaks z_boolean_speaks z_min_speaks z_enum_speaks
  z_object2_speaks z_array_speaks z_optional_speaks : schema.

Lemma chatMessageSchema_speaks : speaks chatMessageSchema.
Proof. unfold chatMessageSchema. auto with schema. Qed.

Lemma chatRequestSchema_speaks : speaks chatRequestSchema.
Proof. unfold chatRequestSchema, chatMessageSchema. auto 6 with schema. Qed.

Lemma chatResponseSchema_speaks : speaks chatResponseSchema.
Proof. unfold chatResponseSchema. auto with schema. Qed.

(** A failing element of an array shows up in the array's issues under
    its index. *)
Lemma parse_items_reports {A} (elem : Schema A) :
  forall items i n v bad,
  nth_error items n = Some v ->
  elem (Some v) = Failure bad ->
  exists issues,
    parse_items elem i items = Failure issues /\
    forall x, In x bad -> In (under (Index (i + n)) x) issues.
Proof.
  induction items as [|w rest IH]; intros i n v bad Hn Hv.
  - destruct n; discriminate.
  - destruct n as [|n]; simpl in Hn.
    + inversion Hn; subst w. simpl. rewrite Hv. simpl.
      rewrite Nat.add_0_r.
      destruct (parse_items elem (S i) rest) as [ok|ib].
      * eexists; split; [reflexivity|]. intros x Hx. now apply in_map.
      * eexists; split; [reflexivity|]. intros x Hx.
        apply in_or_app. left. now apply in_map.
    + destruct (IH (S i) n v bad Hn Hv) as [ib [E Hin]].
      simpl. rewrite E.
      replace (i + S n)%nat with (S i + n)%nat by lia.
      destruct (at_path (Index i) (elem (Some w))) as [ok|ia].
      * eexists; split; [reflexivity|]. exact Hin.
      * eexists; split; [reflexivity|]. intros x Hx.
        apply in_or_app. right. now apply Hin.
Qed.

Lemma length_lt_1 (s : string) :
  Nat.ltb (String.length s) 1 = String.eqb s "".
Proof. destruct s; reflexivity. Qed.

Lemma valid_entry_parses (e : JSON) :
  valid_entry e = true -> exists m, chatMessageSchema (Some e) = Success m.
Proof.
  destruct e as [| | | | |members]; try discriminate.
  unfold valid_entry, chatMessageSchema, z_object2, z_enum, z_min, z_string.
  destruct (assoc "role" members) as [[| | |r| |]|]; try discriminate.
  destruct (assoc "content" members) as [[| | |c| |]|]; try discriminate.
  destruct (enum_value roles r) as [x|]; try discriminate.
  intros H. rewrite length_lt_1.
  destruct (String.eqb c ""); [discriminate|]. simpl. eauto.
Qed.

Lemma valid_entries_parse :
  forall items i, forallb valid_entry items = true ->
  exists h, parse_items chatMessageSchema i items = Success h.
Proof.
  induction items as [|e rest IH]; intros i H; cbn [forallb parse_items] in *.
  - eauto.
  - apply andb_true_iff in H. destruct H as [He Hr].
    destruct (valid_entry_parses e He) as [m Em].
    destruct (IH (S i) Hr) as [h Eh].
    rewrite Em, Eh. simpl. eauto.
Qed.

Lemma ChatMessage_roundtrip (m : ChatMessage) :
  String.eqb (content m) "" = false ->
  chatMessageSchema (Some (ChatMessage_json m)) = Success m.
Proof.
  destruct m as [r c]. simpl. intros Hc.
  unfold chatMessageSchema, z_object2, ChatMessage_json, z_enum, z_min, z_string.
  change (assoc "content" _) with (Some (JString c)).
  cbv beta iota. rewrite length_lt_1, Hc.
  destruct r; reflexivity.
Qed.

Lemma history_roundtrip :
  forall h i,
  forallb (fun m => negb (String.eqb (content m) "")) h = true ->
  parse_items chatMessageSchema i (map ChatMessage_json h) = Success h.
Proof.
  induction h as [|m rest IH]; intros i H; cbn [forallb map parse_items] in *.
  - reflexivity.
  - apply andb_true_iff in H. destruct H as [Hm Hr].
    apply negb_true_iff in Hm.
    rewrite (ChatMessage_roundtrip m Hm), (IH (S i) Hr). reflexivity.
Qed.

Lemma ChatRequest_roundtrip (r : ChatRequest) :
  valid_request r = true ->
  safeParse chatRequestSchema (ChatRequest_json r) = Success r.
Proof.
  destruct r as [m [h|]]; unfold valid_request; simpl; intros H.
  - unfold safeParse, chatRequestSchema, z_object2, ChatRequest_json. simpl.
    rewrite (history_roundtrip h 0%nat H). reflexivity.
  - reflexivity.
Qed.

(** ** Issues point at the offending field *)

Lemma both_left_issue {A B C} (mk : A -> B -> C) ia rb x :
  In x ia -> exists issues, both mk (Failure ia) rb = Failure issues /\ In x issues.
Proof.
  intros Hx. destruct rb as [b|ib]; simpl; eexists; split; try reflexivity; trivial.
  apply in_or_app. now left.
Qed.

Lemma both_right_issue {A B C} (mk : A -> B -> C) ra ib x :
  In x ib -> exists issues, both mk ra (Failure ib) = Failure issues /\ In x issues.
Proof.
  intros Hx. destruct ra as [a|ia]; simpl; eexists; split; try reflexivity; trivial.
  apply in_or_app. now right.
Qed.

Lemma missing_message_reported members :
  assoc "message" members = None ->
  exists issues,
    safeParse chatRequestSchema (JObject members) = Failure issues /\
    mentions [Key "message"] issues.
Proof.
  intros H. unfold safeParse, chatRequestSchema, z_object2. rewrite H.
  cbn [z_string at_path map].
  destruct (both_left_issue mkChatRequest
              [under (Key "message") (issue_here invalid_type None)]
              (at_path (Key "history")
                 (z_optional (z_array chatMessageSchema) (assoc "history" members)))
              (under (Key "message") (issue_here invalid_type None)))
    as [issues [E Hin]]; [now left|].
  exists issues. split; [exact E|]. eexists; split; [exact Hin|reflexivity].
Qed.

Lemma invalid_role_reported entry :
  invalid_role entry = true ->
  exists bad x,
    chatMessageSchema (Some (JObject entry)) = Failure bad /\
    In x bad /\ path x = [Key "role"].
Proof.
  unfold invalid_role. intros H.
  assert (z_enum roles (assoc "role" entry) = Failure [issue_here invalid_value None]) as E.
  { unfold z_enum. destruct (assoc "role" entry) as [[| | |r| |]|]; trivial.
    destruct (enum_value roles r); [discriminate|reflexivity]. }
  unfold chatMessageSchema, z_object2. rewrite E. cbn [at_path map].
  destruct (both_left_issue mkChatMessage
              [under (Key "role") (issue_here invalid_value None)]
              (at_path (Key "content")
                 (z_min 1 "Message cannot be empty" z_string (assoc "content" entry)))
              (under (Key "role") (issue_here invalid_value None)))
    as [bad [Eb Hin]]; [now left|].
  exists bad, (under (Key "role") (issue_here invalid_value None)). auto.
Qed.

Lemma empty_content_reported entry :
  assoc "content" entry = Some (JString "") ->
  exists bad x,
    chatMessageSchema (Some (JObject entry)) = Failure bad /\
    In x bad /\ path x = [Key "content"] /\
    custom_message x = Some "Message cannot be empty".
Proof.
  intros H. unfold chatMessageSchema, z_object2. rewrite H.
  change (z_min 1 "Message cannot be empty" z_string (Some (JString "")))
    with (@Failure string [issue_here too_small (Some "Message cannot be empty")]).
  cbn [at_path map].
  destruct (both_right_issue mkChatMessage
              (at_path (Key "role") (z_enum roles (assoc "role" entry)))
              [under (Key "content") (issue_here too_small (Some "Message cannot be empty"))]
              (under (Key "content") (issue_here too_small (Some "Message cannot be empty"))))
    as [bad [Eb Hin]]; [now left|].
  exists bad, (under (Key "content") (issue_here too_small (Some "Message cannot be empty"))).
  auto.
Qed.

Lemma history_entry_reported members items n e bad x :
  assoc "history" members = Some (JArray items) ->
  nth_error items n = Some e ->
  chatMessageSchema (Some e) = Failure bad ->
  In x bad ->
  exists issues,
    safeParse chatRequestSchema (JObject members) = Failure issues /\
    In (under (Key "history") (under (Index n) x)) issues.
Proof.
  intros Hh Hn He Hx.
  destruct (parse_items_reports chatMessageSchema items 0%nat n e bad Hn He)
    as [ib [Ei Hin]].
  unfold safeParse, chatRequestSchema, z_object2. rewrite Hh.
  unfold z_optional, z_array. rewrite Ei. cbn [at_path].
  apply both_right_issue. apply in_map. now apply Hin.
Qed.

Lemma well_formed_accepted members m :
  assoc "message" members = Some (JString m) ->
  well_formed_history (assoc "history" members) = true ->
  exists h,
    safeParse chatRequestSchema (JObject members)
    = Success {| message := m; history := h |}.
Proof.
  intros Hm Hw. unfold safeParse, chatRequestSchema, z_object2. rewrite Hm.
  unfold well_formed_history in Hw.
  destruct (assoc "history" members) as [[| | | |items|]|]; try discriminate.
  - destruct (valid_entries_parse items 0%nat Hw) as [h Eh].
    unfold z_optional, z_array. rewrite Eh. simpl. eauto.
  - simpl. eauto.
Qed.

Lemma non_string_message_rejected members :
  (forall s, assoc "message" members <> Some (JString s)) ->
  exists issues,
    safeParse chatRequestSchema (JObject members) = Failure issues /\
    mentions [Key "message"] issues.
Proof.
  intros H.
  assert (z_string (assoc "message" members) = Failure [issue_here invalid_type None]) as E.
  { unfold z_string. destruct (assoc "message" members) as [[| | |s| |]|]; trivial.
    now elim (H s). }
  unfold safeParse, chatRequestSchema, z_object2. rewrite E. cbn [at_path map].
  destruct (both_left_issue mkChatRequest
              [under (Key "message") (issue_here invalid_type None)]
              (at_path (Key "history")
                 (z_optional (z_array chatMessageSchema) (assoc "history" members)))
              (under (Key "message") (issue_here invalid_type None)))
    as [issues [Ei Hin]]; [now left|].
  exists issues. split; [exact Ei|]. eexists; split; [exact Hin|reflexivity].
Qed.

Lemma shaped_response_parses v r h :
  prop v "reply" = Some (JString r) ->
  prop v "handled" = Some (JBool h) ->
  safeParse chatResponseSchema v = Success {| reply := r; handled := h |}.
Proof.
  destruct v as [| | | | |members]; try discriminate. simpl.
  intros Hr Hh. unfold safeParse, chatResponseSchema, z_object2.
  rewrite Hr, Hh. reflexivity.
Qed.

Lemma ChatResponse_roundtrip r :
  safeParse chatResponseSchema (ChatResponse_json r) = Success r.
Proof. destruct r; reflexivity. Qed.

Lemma ChatRequest_json_keys r k :
  In k (keys (ChatRequest_json r)) -> k = "message" \/ k = "history".
Proof.
  unfold ChatRequest_json. destruct (history r); simpl; intuition.
Qed.

Lemma ChatRequest_json_entries r items e :
  prop (ChatRequest_json r) "history" = Some (JArray items) ->
  In e items -> keys e = ["role"; "content"].
Proof.
  unfold ChatRequest_json. destruct (history r) as [h|]; simpl; [|discriminate].
  intros H He. inversion H; subst items; clear H.
  apply in_map_iff in He. destruct He as [m [<- _]]. reflexivity.
Qed.

(** ** What the schemas accept *)

Lemma both_success {A B C} (mk : A -> B -> C) ra rb c :
  both mk ra rb = Success c <->
  exists a b, ra = Success a /\ rb = Success b /\ c = mk a b.
Proof.
  split.
  - destruct ra as [a|ia], rb as [b|ib]; simpl; intros H; inversion H; eauto.
  - intros [a [b [-> [-> ->]]]]. reflexivity.
Qed.

Lemma at_path_success {A} seg (r : SafeParse A) a :
  at_path seg r = Success a <-> r = Success a.
Proof. destruct r; simpl; split; intros H; inversion H; reflexivity. Qed.

Lemma enum_value_roles s r : enum_value roles s = Some r <-> s = Role_name r.
Proof.
  split.
  - unfold roles. cbn [enum_value].
    destruct (String.eqb_spec s "user") as [->|_];
      [intros H; inversion H; reflexivity|].
    destruct (String.eqb_spec s "assistant") as [->|_];
      [intros H; inversion H; reflexivity|].
    destruct (String.eqb_spec s "system") as [->|_];
      [intros H; inversion H; reflexivity|discriminate].
  - intros ->. destruct r; reflexivity.
Qed.

Lemma chatMessageSchema_success e m :
  chatMessageSchema (Some e) = Success m <-> entry_matches e m.
Proof.
  unfold entry_matches. split.
  - destruct e as [| | | | |members]; try discriminate.
    unfold chatMessageSchema, z_object2. intros H.
    apply both_success in H. destruct H as [r [c [Hr [Hc ->]]]].
    apply at_path_success in Hr. apply at_path_success in Hc. simpl.
    unfold z_enum in Hr. unfold z_min, z_string in Hc.
    destruct (assoc "role" members) as [[| | |s| |]|]; try discriminate.
    destruct (enum_value roles s) as [r'|] eqn:E; [|discriminate].
    inversion Hr; subst r'. apply enum_value_roles in E. subst s.
    destruct (assoc "content" members) as [[| | |t| |]|]; try discriminate.
    rewrite length_lt_1 in Hc.
    destruct (String.eqb t "") eqn:Ht; [discriminate|].
    apply String.eqb_neq in Ht. inversion Hc; subst. auto.
  - destruct e as [| | | | |members]; simpl; intros [Hr [Hc Hne]]; try discriminate.
    destruct m as [r c]. simpl in *.
    unfold chatMessageSchema, z_object2, z_enum, z_min, z_string.
    rewrite Hr, Hc, length_lt_1.
    replace (enum_value roles (Role_name r)) with (Some r)
      by (symmetry; now apply enum_value_roles).
    apply String.eqb_neq in Hne. rewrite Hne. reflexivity.
Qed.

Lemma parse_items_success :
  forall items i h,
  parse_items chatMessageSchema i items = Success h <-> Forall2 entry_matches items h.
Proof.
  induction items as [|e rest IH]; intros i h; cbn [parse_items].
  - split; intros H; inversion H; constructor.
  - rewrite both_success. split.
    + intros [m [h' [Hm [Hh ->]]]]. apply at_path_success in Hm.
      constructor; [now apply chatMessageSchema_success|now apply (IH (S i))].
    + intros H. inversion H as [|e' m rest' h' Hm Hh]; subst.
      exists m, h'. repeat split.
      * apply at_path_success. now apply chatMessageSchema_success.
      * now apply IH.
Qed.

Lemma chatRequestSchema_success data r :
  safeParse chatRequestSchema data = Success r <-> request_matches data r.
Proof.
  unfold request_matches, safeParse, chatRequestSchema, z_object2.
  destruct data as [| | | | |members]; simpl;
    try (split; [discriminate|intros [H _]; discriminate]).
  rewrite both_success. split.
  - intros [m [h [Hm [Hh ->]]]]. apply at_path_success in Hm, Hh. simpl.
    unfold z_string in Hm.
    destruct (assoc "message" members) as [[| | |s| |]|]; try discriminate.
    inversion Hm; subst s. split; trivial.
    unfold z_optional, z_array in Hh.
    destruct (assoc "history" members) as [[| | | |items|]|]; try discriminate.
    + destruct (parse_items chatMessageSchema 0 items) as [h'|] eqn:E; [|discriminate].
      inversion Hh; subst h. now apply parse_items_success in E.
    + inversion Hh. exact I.
  - intros [Hm Hh]. destruct r as [m h]. simpl in *.
    exists m, h. rewrite Hm. repeat split.
    apply at_path_success. unfold z_optional, z_array.
    destruct (assoc "history" members) as [[| | | |items|]|], h as [h|];
      try contradiction; trivial.
    apply (parse_items_success items 0%nat) in Hh. now rewrite Hh.
Qed.

Lemma chatResponseSchema_success v r :
  safeParse chatResponseSchema v = Success r <-> response_matches v r.
Proof.
  unfold response_matches, safeParse, chatResponseSchema, z_object2.
  destruct v as [| | | | |members]; simpl;
    try (split; [discriminate|intros [H _]; discriminate]).
  rewrite both_success. split.
  - intros [s [b [Hs [Hb ->]]]]. apply at_path_success in Hs, Hb. simpl.
    unfold z_string in Hs. unfold z_boolean in Hb.
    destruct (assoc "reply" members) as [[| | |s'| |]|]; try discriminate.
    destruct (assoc "handled" members) as [[|b'| | | |]|]; try discriminate.
    inversion Hs; inversion Hb; subst. auto.
  - intros [Hs Hb]. destruct r as [s b]. simpl in *. exists s, b.
    rewrite Hs, Hb. auto.
Qed.

Lemma matched_entries_not_empty items h :
  Forall2 entry_matches items h ->
  forallb (fun m => negb (String.eqb (content m) "")) h = true.
Proof.
  induction 1 as [|e m items h [_ [_ Hne]] _ IH]; simpl; trivial.
  apply String.eqb_neq in Hne. now rewrite Hne, IH.
Qed.

Lemma validated_is_valid data r :
  safeParse chatRequestSchema data = Success r -> valid_request r = true.
Proof.
  intros H. apply chatRequestSchema_success in H. destruct H as [_ H].
  unfold valid_request.
  destruct (prop data "history") as [[| | | |items|]|], (history r) as [h|];
    try contradiction; trivial.
  now apply (matched_entries_not_empty items).
Qed.


Lemma matched_entries_stripped items h :
  Forall2 entry_matches items h ->
  Forall2 stripped_entry items (map ChatMessage_json h).
Proof.
  induction 1 as [|e m items h [Hr [Hc _]] _ IH]; simpl; constructor; trivial.
  unfold stripped_entry. rewrite Hr, Hc. repeat split.
Qed.

Lemma ChatRequest_json_message r :
  prop (ChatRequest_json r) "message" = Some (JString (message r)).
Proof. reflexivity. Qed.

Lemma ChatRequest_json_history r :
  prop (ChatRequest_json r) "history"
  = match history r with
    | Some h => Some (JArray (map ChatMessage_json h))
    | None => None
    end.
Proof. unfold ChatRequest_json. destruct (history r); reflexivity. Qed.

(** What the validated request keeps of the data that came in. *)
Lemma validated_request_kept data parsed :
  safeParse chatRequestSchema data = Success parsed ->
  prop (ChatRequest_json parsed) "message" = prop data "message" /\
  match prop data "history" with
  | None => prop (ChatRequest_json parsed) "history" = None
  | Some sent =>
      exists items out,
        sent = JArray items /\
        prop (ChatRequest_json parsed) "history" = Some (JArray out) /\
        Forall2 stripped_entry items out
  end.
Proof.
  intros H. apply chatRequestSchema_success in H. destruct H as [Hm Hh].
  rewrite ChatRequest_json_message, ChatRequest_json_history, Hm.
  split; trivial.
  destruct (prop data "history") as [[| | | |items|]|], (history parsed) as [h|];
    try contradiction; trivial.
  exists items, (map ChatMessage_json h). repeat split.
  now apply matched_entries_stripped.
Qed.

(** ** The monad, [fetch] and [Response] *)

Lemma bind_settles {A B} (m : M A) (f : A -> M B) :
  snd m <> Pending -> (forall a, snd (f a) <> Pending) -> snd (bind m f) <> Pending.
Proof.
  destruct m as [t [a|e|]]; simpl; intros Hm Hf.
  - specialize (Hf a). destruct (f a). exact Hf.
  - discriminate.
  - contradiction.
Qed.

(** Under a signal that fires at some time, waiting comes to an end. *)
Lemma settle_not_pending {A} sig (t : option N) (r : Result A) ts :
  fires_at sig = Some ts -> r <> Pending \/ t = None -> snd (settle sig t r) <> Pending.
Proof.
  unfold settle. intros Hs H. rewrite Hs.
  destruct t as [t'|]; [|simpl; discriminate].
  destruct (ts <=? t'); simpl; [discriminate|].
  destruct H as [H|H]; [exact H|discriminate].
Qed.

Lemma calls_app t t' : calls (t ++ t') = calls t ++ calls t'.
Proof. unfold calls. apply flat_map_app. Qed.

Lemma settle_calls {A} sig t (r : Result A) : calls (fst (settle sig t r)) = [].
Proof.
  unfold settle. destruct (fires_at sig) as [ts|], t as [t'|]; try reflexivity.
  destruct (ts <=? t'); reflexivity.
Qed.

Lemma bind_calls {A B} (m : M A) (f : A -> M B) :
  calls (fst (bind m f))
  = calls (fst m) ++ match snd m with
                     | Ok a => calls (fst (f a))
                     | _ => []
                     end.
Proof.
  destruct m as [t [a|e|]]; simpl; rewrite ?app_nil_r; trivial.
  destruct (f a) as [t' r]. simpl. apply calls_app.
Qed.

Section Fetch.

Variable net : Network.
Variable call : FetchCall.

Lemma fetch_delivers t res :
  net call = Responds t res ->
  fired_by (signal call) t = false ->
  fetch net call = ([Fetched call], Ok res).
Proof.
  unfold fetch, fired_by, settle. intros Hn Hq. cbn [bind]. rewrite Hn.
  destruct (fires_at (signal call)) as [ts|]; [rewrite Hq|]; reflexivity.
Qed.

Lemma fetch_fails t err :
  net call = Fails t err ->
  fired_by (signal call) t = false ->
  fetch net call = ([Fetched call], Throw err).
Proof.
  unfold fetch, fired_by, settle. intros Hn Hq. cbn [bind]. rewrite Hn.
  destruct (fires_at (signal call)) as [ts|]; [rewrite Hq|]; reflexivity.
Qed.

Lemma fetch_aborted ts :
  fires_at (signal call) = Some ts ->
  unsettled_at (net call) ts ->
  fetch net call
  = ([Fetched call; Aborted ts (reason (signal call))], Throw (reason (signal call))).
Proof.
  unfold fetch, settle, unsettled_at. intros Hs Hu. cbn [bind]. rewrite Hs.
  destruct (net call) as [t res|t err|]; try reflexivity;
    apply N.leb_le in Hu; rewrite Hu; reflexivity.
Qed.

Lemma fetch_calls : calls (fst (fetch net call)) = [call].
Proof.
  unfold fetch. rewrite bind_calls. simpl.
  destruct (net call); now rewrite settle_calls.
Qed.

Lemma fetch_settles ts :
  fires_at (signal call) = Some ts -> snd (fetch net call) <> Pending.
Proof.
  intros Hs. unfold fetch. apply bind_settles; [discriminate|]. intros _.
  destruct (net call) as [t res|t err|];
    apply (settle_not_pending _ _ _ _ Hs);
    (left; discriminate) || (right; reflexivity).
Qed.

End Fetch.

Lemma falsy_has_no_members payload k :
  truthy payload = false -> prop payload k = None.
Proof. destruct payload; simpl; intros H; trivial; discriminate. Qed.

(** The message the handler picks is the first truthy one of the payload's
    [error] and [message] members, the synthesized text if there is none. *)
Lemma upstream_error_message_eq payload s :
  upstream_error_message payload s = Some (truthy_error_message payload s).
Proof.
  unfold upstream_error_message, truthy_error_message, js_or, js_and.
  cbn [truthy_opt].
  destruct (truthy payload) eqn:T.
  - destruct (prop payload "error") as [v|]; [destruct (truthy v) eqn:Tv|];
      (destruct (prop payload "message") as [w|]; [destruct (truthy w) eqn:Tw|]);
      cbn [truthy_opt]; rewrite ?Tv, ?Tw; cbn [truthy_opt]; rewrite ?Tv, ?Tw;
      reflexivity.
  - rewrite !(falsy_has_no_members payload _ T). cbn [truthy_opt]. rewrite !T.
    cbn [truthy_opt]. rewrite ?T. reflexivity.
Qed.

(** ** The handler *)

Section Handler.

Variable rt : Runtime.

Lemma NextResponse_json_sendable v s :
  sendable s = true ->
  NextResponse_json rt v s
  = Ok {| status := s; resp_content_type := "application/json"; resp_body := JsonBody v |}.
Proof.
  unfold sendable, NextResponse_json. intros H.
  apply andb_true_iff in H. destruct H as [H Hn].
  apply andb_true_iff in H. destruct H as [Hlo Hhi].
  rewrite (N.ltb_antisym 200 s), (N.ltb_antisym s 599), Hlo, Hhi.
  apply negb_true_iff in Hn. rewrite Hn. reflexivity.
Qed.


(** *** The [catch] block *)

Lemma on_error_abort err :
  abort_named err -> on_error rt err = ([], Ok timeout_envelope).
Proof.
  intros [H|H]; unfold on_error; rewrite H; reflexivity.
Qed.

Lemma on_error_other err :
  name err <> "AbortError" -> name err <> "TimeoutError" ->
  on_error rt err
  = ([], Ok (unexpected_envelope "[API_CHAT] Unexpected error" (err_message err))).
Proof.
  intros Ha Ht. unfold on_error.
  apply String.eqb_neq in Ha. apply String.eqb_neq in Ht.
  rewrite Ha, Ht. reflexivity.
Qed.

Lemma on_error_answers err : exists resp, on_error rt err = ([], Ok resp).
Proof.
  unfold on_error.
  destruct (String.eqb (name err) "AbortError" || String.eqb (name err) "TimeoutError");
    eexists; reflexivity.
Qed.

Lemma try_catch_calls (m : M NextResponse) :
  calls (fst (try_catch m (on_error rt))) = calls (fst m).
Proof.
  destruct m as [t [a|e|]]; simpl; trivial.
  destruct (on_error_answers e) as [resp E]. rewrite E. simpl.
  now rewrite app_nil_r.
Qed.

Lemma timeout_reason_named ms : abort_named (reason (AbortSignal_timeout rt ms)).
Proof. right. reflexivity. Qed.

(** *** Reading the payload and answering *)

Lemma read_payload_quiet sig res :
  fired_by sig (body_at res) = false ->
  read_payload rt sig res = ([], Ok (payload_of res)).
Proof.
  unfold read_payload, payload_of, res_json, res_text, settle, fired_by.
  intros Hq.
  destruct (includes "application/json" (contentType_of res));
    destruct (fires_at sig) as [ts|]; try rewrite Hq;
    try destruct (json_body res); reflexivity.
Qed.

Lemma read_payload_calls sig res : calls (fst (read_payload rt sig res)) = [].
Proof.
  unfold read_payload, res_json, res_text.
  destruct (includes "application/json" (contentType_of res)).
  - pose proof (settle_calls sig (Some (body_at res))
                  (match json_body res with
                   | Some v => Ok v
                   | None => Throw {| name := "SyntaxError";
                                      err_message := error_text rt BadJson |}
                   end)) as H.
    destruct (settle _ _ _) as [t [a|e|]]; exact H.
  - rewrite bind_calls, settle_calls. simpl.
    destruct (snd (settle _ _ _)); reflexivity.
Qed.


Lemma respond_silent res payload : fst (respond rt res payload) = [].
Proof.
  unfold respond.
  destruct (negb (res_ok res)); [reflexivity|].
  destruct (includes "application/json" (contentType_of res)); [|reflexivity].
  destruct (parse rt chatResponseSchema payload); reflexivity.
Qed.


Lemma respond_failure res payload :
  res_ok res = false ->
  sendable (res_status res) = true ->
  respond rt res payload
  = ([], Ok (error_envelope (res_status res)
                            (truthy_error_message payload (res_status res)))).
Proof.
  intros Hok Hs. unfold respond. rewrite Hok. cbn [negb].
  rewrite upstream_error_message_eq. cbn [js_object].
  rewrite (NextResponse_json_sendable _ _ Hs). reflexivity.
Qed.

Lemma respond_success res payload r :
  res_ok res = true ->
  includes "application/json" (contentType_of res) = true ->
  safeParse chatResponseSchema payload = Success r ->
  respond rt res payload = ([], Ok (success_envelope r)).
Proof.
  intros Hok Hj Hp. unfold respond, parse. rewrite Hok, Hj, Hp. reflexivity.
Qed.

Lemma respond_malformed res payload issues :
  res_ok res = true ->
  includes "application/json" (contentType_of res) = true ->
  safeParse chatResponseSchema payload = Failure issues ->
  respond rt res payload
  = ([], Throw {| name := "ZodError"; err_message := error_text rt (ZodIssues issues) |}).
Proof.
  intros Hok Hj Hp. unfold respond, parse. rewrite Hok, Hj, Hp. reflexivity.
Qed.

(** *** One invocation *)

Variable net : Network.
Variable req : NextRequest.

(** The composite signal fires when the earlier of its two sources does. *)
Lemma relay_signal_fires :
  fires_at (relay_signal rt req) = Some (abort_time req).
Proof.
  unfold relay_signal, AbortSignal_any, AbortSignal_timeout, abort_time.
  cbn [fold_right].
  unfold first_of at 2. cbn [fires_at never].
  unfold first_of. cbn [fires_at].
  destruct (fires_at (req_signal req)) as [tc|] eqn:Ec; [|reflexivity].
  destruct (timeout_ms <? tc) eqn:E; cbn [fires_at]; rewrite ?Ec; f_equal.
  - apply N.ltb_lt in E. symmetry. apply N.min_r. lia.
  - apply N.ltb_ge in E. symmetry. now apply N.min_l.
Qed.

(** It carries the reason of the source that fired: the caller's if that
    one fired no later than the timeout, the timeout's otherwise. *)
Lemma relay_signal_reason :
  reason (relay_signal rt req)
  = match fires_at (req_signal req) with
    | Some tc => if timeout_ms <? tc
                 then reason (AbortSignal_timeout rt timeout_ms)
                 else reason (req_signal req)
    | None => reason (AbortSignal_timeout rt timeout_ms)
    end.
Proof.
  unfold relay_signal, AbortSignal_any, AbortSignal_timeout. cbn [fold_right].
  unfold first_of at 2. cbn [fires_at never].
  unfold first_of. cbn [fires_at].
  destruct (fires_at (req_signal req)) as [tc|]; [|reflexivity].
  destruct (timeout_ms <? tc); reflexivity.
Qed.

Lemma POST_unset API_URL :
  unset API_URL = true ->
  POST rt API_URL net req = ([], Ok missing_url_envelope).
Proof.
  intros H. unfold POST. destruct API_URL as [base|]; [rewrite H|]; reflexivity.
Qed.


Section Configured.

Variable base : string.
Hypothesis configured : unset (Some base) = false.

Lemma POST_configured :
  POST rt (Some base) net req = try_catch (relay rt base net req) (on_error rt).
Proof. unfold POST. now rewrite configured. Qed.

Lemma relay_undecodable :
  req_body req = None ->
  relay rt base net req
  = ([], Throw {| name := "SyntaxError"; err_message := error_text rt BadJson |}).
Proof. intros H. unfold relay, req_json. rewrite H. reflexivity. Qed.

Lemma relay_invalid data issues :
  req_body req = Some data ->
  safeParse chatRequestSchema data = Failure issues ->
  relay rt base net req = ([], Ok (invalid_envelope rt issues)).
Proof.
  intros Hb Hp. unfold relay, req_json. rewrite Hb.
  cbn [lift bind]. rewrite Hp. reflexivity.
Qed.

Lemma POST_invalid data issues :
  req_body req = Some data ->
  safeParse chatRequestSchema data = Failure issues ->
  POST rt (Some base) net req = ([], Ok (invalid_envelope rt issues)).
Proof.
  intros Hb Hp. now rewrite POST_configured, (relay_invalid _ _ Hb Hp).
Qed.

(** An error thrown in the [try] block that is not an abort is reported
    with its message. *)
Lemma POST_thrown t err :
  relay rt base net req = (t, Throw err) ->
  name err <> "AbortError" ->
  name err <> "TimeoutError" ->
  POST rt (Some base) net req
  = (t, Ok (unexpected_envelope "[API_CHAT] Unexpected error" (err_message err))).
Proof.
  intros Hr Ha Ht. rewrite POST_configured, Hr.
  cbn [try_catch]. rewrite (on_error_other _ Ha Ht). now rewrite app_nil_r.
Qed.

(** An abort thrown in the [try] block is reported as a timeout. *)
Lemma POST_aborted t err :
  relay rt base net req = (t, Throw err) ->
  abort_named err ->
  POST rt (Some base) net req = (t, Ok timeout_envelope).
Proof.
  intros Hr Hn. rewrite POST_configured, Hr.
  cbn [try_catch]. rewrite (on_error_abort _ Hn). now rewrite app_nil_r.
Qed.

Section Validated.

Variable data : JSON.
Variable parsed : ChatRequest.
Hypothesis decoded : req_body req = Some data.
Hypothesis validated : safeParse chatRequestSchema data = Success parsed.

(** The one call of the invocation. *)
Local Abbreviation call := (upstream_call rt base req parsed).

Lemma relay_valid :
  relay rt base net req
  = (res <- fetch net call ;;
     payload <- read_payload rt (relay_signal rt req) res ;;
     respond rt res payload).
Proof.
  unfold relay, req_json. rewrite decoded.
  cbn [lift bind]. rewrite validated.
  destruct (bind _ _) as [t r]. reflexivity.
Qed.

Lemma relay_answered t res :
  net call = Responds t res ->
  quiet_until rt req t ->
  quiet_until rt req (body_at res) ->
  relay rt base net req
  = ([Fetched call], snd (respond rt res (payload_of res))).
Proof.
  intros Hn Ht Hbody.
  rewrite relay_valid, (fetch_delivers net call t res Hn Ht).
  cbn [bind]. rewrite (read_payload_quiet _ res Hbody).
  cbn [bind]. pose proof (respond_silent res (payload_of res)) as Hs.
  destruct (respond rt res (payload_of res)) as [t' r]. simpl in *. now subst.
Qed.

Lemma POST_answered t res resp :
  net call = Responds t res ->
  quiet_until rt req t ->
  quiet_until rt req (body_at res) ->
  respond rt res (payload_of res) = ([], Ok resp) ->
  POST rt (Some base) net req = ([Fetched call], Ok resp).
Proof.
  intros Hn Ht Hbody Hr.
  rewrite POST_configured, (relay_answered _ _ Hn Ht Hbody), Hr. reflexivity.
Qed.

(** A validated request leads to exactly one upstream call, whatever the
    network does with it. *)
Lemma POST_calls_valid :
  calls (fst (POST rt (Some base) net req)) = [call].
Proof.
  rewrite POST_configured, try_catch_calls, relay_valid, bind_calls, fetch_calls.
  destruct (snd (fetch _ _)) as [res|e|]; trivial.
  rewrite bind_calls, read_payload_calls. simpl.
  destruct (snd (read_payload _ _ _)) as [payload|e|]; trivial.
  pose proof (respond_silent res payload) as H. now rewrite H.
Qed.

(** C3, amended: for every upstream response that arrives before either
    abort source fires, with a non-2xx status that a response with a body
    may carry (200 to 599, except 204, 205 and 304), the relay returns
    [{ error: m }] with the upstream's status, where [m] is the [error]
    member of the payload if present and truthy, else the [message] member
    if present and truthy, else the text [Upstream error <status>] (the
    payload being the decoded body when the content type contains
    application/json, the body text otherwise); in particular an upstream
    503 with JSON body [{ error: "overloaded" }] gives
    [{ error: "overloaded" }] with status 503. *)
Theorem C3_upstream_failure_passed_on t res :
  net call = Responds t res ->
  quiet_until rt req t ->
  quiet_until rt req (body_at res) ->
  res_ok res = false ->
  sendable (res_status res) = true ->
  POST rt (Some base) net req
  = ([Fetched call],
     Ok (error_envelope (res_status res)
           (truthy_error_message (payload_of res) (res_status res)))) /\
  (res_status res = 503 ->
   includes "application/json" (contentType_of res) = true ->
   json_body res = Some overloaded ->
   POST rt (Some base) net req
   = ([Fetched call], Ok (error_envelope 503 (JString "overloaded")))).
Proof.
  intros Hn Ht Hbody Hok Hs.
  pose proof (POST_answered t res _ Hn Ht Hbody (respond_failure _ _ Hok Hs)) as E.
  split; [exact E|].
  intros H503 Hj Hv. rewrite E, H503. unfold payload_of. rewrite Hj, Hv. reflexivity.
Qed.

(** C4, amended: the signal the one upstream call is made under fires at
    the caller's time or after the fixed 20 seconds, whichever comes first;
    when it fires while the upstream has not yet answered, the call is
    aborted at that time, and the relay returns exactly
    [{ error: "Upstream request timed out" }] with status 504 provided the
    reason then carried is named AbortError or TimeoutError, which holds
    for the timeout and, for the caller's signal, when that signal aborts
    with such a reason. *)
Theorem C4_abort_gives_timeout_envelope :
  unsettled_at (net call) (abort_time req) ->
  (forall tc, fires_at (req_signal req) = Some tc -> tc <= timeout_ms ->
              abort_named (reason (req_signal req))) ->
  abort_time req <= timeout_ms /\
  (forall tc, fires_at (req_signal req) = Some tc -> abort_time req <= tc) /\
  fires_at (signal call) = Some (abort_time req) /\
  POST rt (Some base) net req
  = ([Fetched call; Aborted (abort_time req) (reason (signal call))],
     Ok timeout_envelope).
Proof.
  intros Hu Hnamed.
  split; [|split; [|split]].
  - unfold abort_time. destruct (fires_at (req_signal req)); lia.
  - intros tc E. unfold abort_time. rewrite E. lia.
  - apply relay_signal_fires.
  - assert (abort_named (reason (relay_signal rt req))) as Hr.
    { rewrite relay_signal_reason.
      destruct (fires_at (req_signal req)) as [tc|] eqn:E;
        [|apply timeout_reason_named].
      destruct (timeout_ms <? tc) eqn:L; [apply timeout_reason_named|].
      apply (Hnamed tc); trivial. now apply N.ltb_ge. }
    apply (POST_aborted _ (reason (relay_signal rt req))); [|exact Hr].
    rewrite relay_valid.
    rewrite (fetch_aborted net call (abort_time req) relay_signal_fires Hu).
    reflexivity.
Qed.

(** C5, amended: for every upstream 2xx response with a JSON content type
    that arrives before either abort source fires: if its body is an
    object with a string [reply] and a boolean [handled], the relay returns
    [{ reply, handled }] with these two values and status 200, any other
    member of the body being dropped, which is the body itself when the
    body has exactly these two members in this order; if its body does not
    pass the response schema (or does not decode), the relay does not pass
    it on but answers with the error envelope of status 500 whose detail is
    the validation error's message; in particular an upstream 200
    [{ reply: "Paris", handled: true }] is returned as it is with status
    200. *)
Theorem C5_upstream_success_passed_on t res :
  net call = Responds t res ->
  quiet_until rt req t ->
  quiet_until rt req (body_at res) ->
  res_ok res = true ->
  includes "application/json" (contentType_of res) = true ->
  (forall v r h,
     json_body res = Some v ->
     prop v "reply" = Some (JString r) ->
     prop v "handled" = Some (JBool h) ->
     POST rt (Some base) net req
     = ([Fetched call], Ok (success_envelope {| reply := r; handled := h |}))) /\
  (forall r,
     json_body res = Some (ChatResponse_json r) ->
     POST rt (Some base) net req
     = ([Fetched call],
        Ok {| status := 200;
              resp_content_type := "application/json";
              resp_body := JsonBody (ChatResponse_json r) |})) /\
  (forall issues,
     safeParse chatResponseSchema (payload_of res) = Failure issues ->
     POST rt (Some base) net req
     = ([Fetched call],
        Ok (unexpected_envelope "[API_CHAT] Unexpected error"
              (error_text rt (ZodIssues issues))))) /\
  (json_body res = Some paris ->
   POST rt (Some base) net req
   = ([Fetched call],
      Ok {| status := 200;
            resp_content_type := "application/json";
            resp_body := JsonBody paris |})).
Proof.
  intros Hn Ht Hbody Hok Hj.
  assert (forall v r, json_body res = Some v ->
            safeParse chatResponseSchema v = Success r ->
            POST rt (Some base) net req = ([Fetched call], Ok (success_envelope r)))
    as Hgood.
  { intros v r Hv Hr. apply (POST_answered t res _ Hn Ht Hbody).
    apply respond_success; trivial. unfold payload_of. now rewrite Hj, Hv. }
  split; [|split; [|split]].
  - intros v r h Hv Hr Hh. apply (Hgood v); trivial.
    now apply shaped_response_parses.
  - intros r Hv. apply (Hgood _ r Hv), ChatResponse_roundtrip.
  - intros issues Hbad.
    rewrite POST_configured, (relay_answered _ _ Hn Ht Hbody).
    rewrite (respond_malformed _ _ _ Hok Hj Hbad). reflexivity.
  - intros Hv. apply (Hgood paris {| reply := "Paris"; handled := true |} Hv).
    reflexivity.
Qed.

(** C10: whatever members the inbound request object carries, once it has
    passed validation the body of the one call sent upstream has no member
    but [message] and [history]: its [message] is the request's, its
    [history] is absent when the request's is and otherwise holds, entry
    for entry and in the same order, the [role] and the [content] of the
    request's entries and no other member; and whatever members an upstream
    2xx JSON object carries, once it has passed the response schema the 200
    response returned to the caller has the members [reply] and [handled]
    only, with the values the upstream gave them. *)
Theorem C10_unknown_members_stripped :
  (exists c,
     calls (fst (POST rt (Some base) net req)) = [c] /\
     (forall k, In k (keys (body c)) -> k = "message" \/ k = "history") /\
     (forall items e,
        prop (body c) "history" = Some (JArray items) ->
        In e items -> keys e = ["role"; "content"]) /\
     prop (body c) "message" = prop data "message" /\
     match prop data "history" with
     | None => prop (body c) "history" = None
     | Some sent =>
         exists items out,
           sent = JArray items /\
           prop (body c) "history" = Some (JArray out) /\
           Forall2 stripped_entry items out
     end) /\
  (forall t res v r,
     net call = Responds t res ->
     quiet_until rt req t ->
     quiet_until rt req (body_at res) ->
     res_ok res = true ->
     includes "application/json" (contentType_of res) = true ->
     json_body res = Some v ->
     safeParse chatResponseSchema v = Success r ->
     exists answer,
       POST rt (Some base) net req
       = ([Fetched call],
          Ok {| status := 200;
                resp_content_type := "application/json";
                resp_body := JsonBody answer |}) /\
       keys answer = ["reply"; "handled"] /\
       prop answer "reply" = Some (JString (reply r)) /\
       prop answer "handled" = Some (JBool (handled r)) /\
       prop answer "reply" = prop v "reply" /\
       prop answer "handled" = prop v "handled").
Proof.
  split.
  - exists call. split; [exact POST_calls_valid|].
    split; [apply ChatRequest_json_keys|].
    split; [apply ChatRequest_json_entries|].
    exact (validated_request_kept data parsed validated).
  - intros t res v r Hn Ht Hbody Hok Hj Hv Hr.
    exists (ChatResponse_json r). split; [|split; [|split; [|split]]]; trivial.
    + apply (POST_answered t res _ Hn Ht Hbody).
      apply respond_success; trivial. unfold payload_of. now rewrite Hj, Hv.
    + apply chatResponseSchema_success in Hr. destruct Hr as [Hr Hh].
      rewrite Hr, Hh. split; reflexivity.
Qed.

End Validated.

(** C1, amended: with the upstream configured, a request object whose
    top-level [message] is missing or is not a string is rejected by the
    validation, answered with the 400 validation-failure envelope, and the
    network sees nothing; a request whose [message] is the empty string
    (its [history] absent or well formed) passes the validation and is
    forwarded upstream in exactly one call. *)
Theorem C1_message_must_be_a_string members :
  req_body req = Some (JObject members) ->
  ((forall s, assoc "message" members <> Some (JString s)) ->
   rejected_before_upstream rt (POST rt (Some base) net req)) /\
  (assoc "message" members = Some (JString "") ->
   well_formed_history (assoc "history" members) = true ->
   exists parsed,
     safeParse chatRequestSchema (JObject members) = Success parsed /\
     message parsed = "" /\
     calls (fst (POST rt (Some base) net req)) = [upstream_call rt base req parsed]).
Proof.
  intros Hb. split.
  - intros Hm. destruct (non_string_message_rejected members Hm) as [issues [E _]].
    exists issues. split.
    + exact (chatRequestSchema_speaks _ _ E).
    + exact (POST_invalid _ _ Hb E).
  - intros Hm Hw. destruct (well_formed_accepted members "" Hm Hw) as [h E].
    eexists. split; [exact E|]. split; [reflexivity|].
    exact (POST_calls_valid _ _ Hb E).
Qed.

End Configured.


(** Without a validated request the network sees nothing at all. *)
Lemma POST_trace_needs_valid API_URL :
  fst (POST rt API_URL net req) <> [] ->
  unset API_URL = false /\
  exists data parsed,
    req_body req = Some data /\
    safeParse chatRequestSchema data = Success parsed.
Proof.
  intros H. destruct (unset API_URL) eqn:U.
  - rewrite (POST_unset _ U) in H. now elim H.
  - split; trivial. destruct API_URL as [base|]; [|discriminate].
    rewrite (POST_configured base U) in H.
    destruct (req_body req) as [data|] eqn:Hb.
    + destruct (safeParse chatRequestSchema data) as [parsed|issues] eqn:Hp; eauto.
      rewrite (relay_invalid base _ _ Hb Hp) in H. now elim H.
    + rewrite (relay_undecodable base Hb) in H. now elim H.
Qed.

(** C2, amended: with the base URL unset the response is exactly
    [{ error: "API_URL not found" }] with status 500, without a detail;
    whenever the [try] block throws an error whose name is neither
    AbortError nor TimeoutError, and in particular when the connection to
    the upstream fails before either abort source has fired, the response
    is exactly [{ error: "[API_CHAT] Unexpected error", detail: message }]
    with status 500, [message] being the error's message. *)
Theorem C2_unexpected_error_envelope API_URL :
  (unset API_URL = true ->
   POST rt API_URL net req = ([], Ok missing_url_envelope)) /\
  (forall base t err,
     API_URL = Some base ->
     unset API_URL = false ->
     relay rt base net req = (t, Throw err) ->
     name err <> "AbortError" ->
     name err <> "TimeoutError" ->
     POST rt API_URL net req
     = (t, Ok (unexpected_envelope "[API_CHAT] Unexpected error" (err_message err)))) /\
  (forall base data parsed t err,
     API_URL = Some base ->
     unset API_URL = false ->
     req_body req = Some data ->
     safeParse chatRequestSchema data = Success parsed ->
     net (upstream_call rt base req parsed) = Fails t err ->
     quiet_until rt req t ->
     name err <> "AbortError" ->
     name err <> "TimeoutError" ->
     POST rt API_URL net req
     = ([Fetched (upstream_call rt base req parsed)],
        Ok (unexpected_envelope "[API_CHAT] Unexpected error" (err_message err)))).
Proof.
  split; [|split].
  - apply POST_unset.
  - intros base t err -> U Hr Ha Ht. exact (POST_thrown base U t err Hr Ha Ht).
  - intros base data parsed t err -> U Hb Hp Hn Hq Ha Ht.
    apply (POST_thrown base U); trivial.
    rewrite (relay_valid base data parsed Hb Hp),
      (fetch_fails net (upstream_call rt base req parsed) t err Hn Hq).
    reflexivity.
Qed.

(** C6: on every decoded JSON value the validator returns a result, a
    success or a failure with at least one issue; it accepts every request
    object with a string [message] (non-empty or not) and a well-formed
    optional [history]; it rejects a request object without [message], one
    whose history has an entry with an invalid role and one whose history
    has an entry with empty content, each time with an issue whose path is
    the offending field; and on rejection the route answers
    [{ error: "Invalid request data", issues }] with status 400. *)
Theorem C6_validator_contract base data :
  ((exists r, safeParse chatRequestSchema data = Success r) \/
   (exists issues, issues <> [] /\ safeParse chatRequestSchema data = Failure issues)) /\
  (forall members m,
     data = JObject members ->
     assoc "message" members = Some (JString m) ->
     well_formed_history (assoc "history" members) = true ->
     exists r, safeParse chatRequestSchema data = Success r) /\
  (forall members,
     data = JObject members ->
     assoc "message" members = None ->
     exists issues,
       safeParse chatRequestSchema data = Failure issues /\
       mentions [Key "message"] issues) /\
  (forall members items n entry,
     data = JObject members ->
     assoc "history" members = Some (JArray items) ->
     nth_error items n = Some (JObject entry) ->
     invalid_role entry = true ->
     exists issues,
       safeParse chatRequestSchema data = Failure issues /\
       mentions [Key "history"; Index n; Key "role"] issues) /\
  (forall members items n entry,
     data = JObject members ->
     assoc "history" members = Some (JArray items) ->
     nth_error items n = Some (JObject entry) ->
     assoc "content" entry = Some (JString "") ->
     exists issues,
       safeParse chatRequestSchema data = Failure issues /\
       mentions [Key "history"; Index n; Key "content"] issues) /\
  (forall issues,
     unset (Some base) = false ->
     req_body req = Some data ->
     safeParse chatRequestSchema data = Failure issues ->
     POST rt (Some base) net req = ([], Ok (invalid_envelope rt issues))).
Proof.
  repeat split.
  - destruct (safeParse chatRequestSchema data) as [r|issues] eqn:E; [eauto|].
    right. exists issues. split; trivial. exact (chatRequestSchema_speaks _ _ E).
  - intros members m -> Hm Hw.
    destruct (well_formed_accepted members m Hm Hw) as [h E]. eauto.
  - intros members -> Hm. now apply missing_message_reported.
  - intros members items n entry -> Hh Hn Hr.
    destruct (invalid_role_reported entry Hr) as [bad [x [Eb [Hx Hp]]]].
    destruct (history_entry_reported members items n _ bad x Hh Hn Eb Hx)
      as [issues [E Hin]].
    exists issues. split; trivial. eexists. split; [exact Hin|].
    simpl. now rewrite Hp.
  - intros members items n entry -> Hh Hn Hc.
    destruct (empty_content_reported entry Hc) as [bad [x [Eb [Hx [Hp _]]]]].
    destruct (history_entry_reported members items n _ bad x Hh Hn Eb Hx)
      as [issues [E Hin]].
    exists issues. split; trivial. eexists. split; [exact Hin|].
    simpl. now rewrite Hp.
  - intros issues U Hb Hp. exact (POST_invalid base U data issues Hb Hp).
Qed.

(** C7: with the upstream base URL unset the handler answers with status
    500 and an empty trace; with a request that fails validation it answers
    with the validation failure and an empty trace; and whenever the trace
    of an invocation has any network event at all, the base URL was set and
    the request body had passed validation. *)
Theorem C7_no_network_before_validation API_URL :
  (unset API_URL = true ->
   exists resp,
     POST rt API_URL net req = ([], Ok resp) /\ status resp = 500) /\
  (forall data issues,
     unset API_URL = false ->
     req_body req = Some data ->
     safeParse chatRequestSchema data = Failure issues ->
     POST rt API_URL net req = ([], Ok (invalid_envelope rt issues))) /\
  (fst (POST rt API_URL net req) <> [] ->
   unset API_URL = false /\
   exists data parsed,
     req_body req = Some data /\
     safeParse chatRequestSchema data = Success parsed).
Proof.
  split; [|split].
  - intros U. rewrite (POST_unset _ U). eexists. split; reflexivity.
  - intros data issues U Hb Hp. destruct API_URL as [base|]; [|discriminate].
    exact (POST_invalid base U data issues Hb Hp).
  - apply POST_trace_needs_valid.
Qed.

End Handler.

(** ** The panel *)

Lemma filter_non_system_Forall l :
  Forall (fun m => role m <> system) (filter (fun m => negb (is_system m)) l).
Proof.
  apply Forall_forall. intros m Hm. apply filter_In in Hm. destruct Hm as [_ Hm].
  unfold is_system in Hm. intros E. rewrite E in Hm. discriminate.
Qed.

Lemma filter_non_system_id l :
  Forall (fun m => role m <> system) l ->
  filter (fun m => negb (is_system m)) l = l.
Proof.
  induction 1 as [|m l Hm _ IH]; cbn [filter]; trivial.
  unfold is_system at 1.
  destruct (role m) eqn:R; cbn [negb]; rewrite ?IH; trivial. now elim Hm.
Qed.

Lemma sendMessage_start_spec s s' r :
  sendMessage_start s = Some (s', r) ->
  message r = trim (input s) /\
  message r <> "" /\
  loading s = false /\
  history r = Some (filter (fun m => negb (is_system m)) (messages s)) /\
  messages s' = messages s ++ [{| role := user; content := message r |}].
Proof.
  unfold sendMessage_start.
  destruct (String.eqb (trim (input s)) "") eqn:E; [discriminate|].
  destruct (loading s); [discriminate|]. simpl.
  intros H. inversion H; subst; clear H. simpl.
  apply String.eqb_neq in E. auto.
Qed.

Section Panel.

Variable rt : Runtime.

Lemma sendMessage_settle_messages o s :
  messages (sendMessage_settle rt o s) = messages s \/
  exists text,
    messages (sendMessage_settle rt o s)
    = messages s ++ [{| role := assistant; content := text |}].
Proof.
  unfold sendMessage_settle. destruct o as [res|err]; [|now left].
  destruct (negb _); [now left|].
  destruct (client_json rt res) as [d|e|]; try now left.
  destruct (reply_text rt d) as [text|e|]; try now left.
  right. exists text. reflexivity.
Qed.

Lemma step_keeps_lead s s' : step rt s s' -> led_by_system s -> led_by_system s'.
Proof.
  intros Hstep [rest [Hm Hrest]]. destruct Hstep as [v s|s s' req Hs|o s|s].
  - exists rest. auto.
  - destruct (sendMessage_start_spec _ _ _ Hs) as [_ [_ [_ [_ Hm']]]].
    exists (rest ++ [{| role := user; content := message req |}]).
    rewrite Hm', Hm. split; [reflexivity|].
    apply Forall_app. split; trivial. repeat constructor. discriminate.
  - destruct (sendMessage_settle_messages o s) as [E|[text E]].
    + exists rest. rewrite E. auto.
    + exists (rest ++ [{| role := assistant; content := text |}]).
      rewrite E, Hm. split; [reflexivity|].
      apply Forall_app. split; trivial. repeat constructor. discriminate.
  - exists []. split; [reflexivity|constructor].
Qed.

Lemma reachable_led s : reachable rt s -> led_by_system s.
Proof.
  induction 1 as [|s s' _ IH Hstep].
  - exists []. split; [reflexivity|constructor].
  - exact (step_keeps_lead s s' Hstep IH).
Qed.

(** C8: a [ChatRequest] none of whose history entries has empty content
    validates to itself; the one call the relay then makes carries exactly
    its JSON form as body, message and history entries in their order; and
    in the panel the history sent with a turn is, unchanged and in the same
    order, the beginning of the history sent with the next turn. *)
Theorem C8_request_round_trip base net req r :
  valid_request r = true ->
  safeParse chatRequestSchema (ChatRequest_json r) = Success r /\
  (unset (Some base) = false ->
   req_body req = Some (ChatRequest_json r) ->
   exists call,
     calls (fst (POST rt (Some base) net req)) = [call] /\
     body call
     = JObject (("message", JString (message r)) ::
                match history r with
                | Some h => [("history", JArray (map ChatMessage_json h))]
                | None => []
                end)) /\
  (forall s s1 r1 o v s2 r2,
     sendMessage_start s = Some (s1, r1) ->
     sendMessage_start (setInput v (sendMessage_settle rt o s1)) = Some (s2, r2) ->
     exists h1 later,
       history r1 = Some h1 /\ history r2 = Some (h1 ++ later)).
Proof.
  intros Hv. split; [now apply ChatRequest_roundtrip|]. split.
  - intros U Hb. exists (upstream_call rt base req r). split; [|reflexivity].
    apply (POST_calls_valid rt net req base U _ r Hb).
    now apply ChatRequest_roundtrip.
  - intros s s1 r1 o v s2 r2 H1 H2.
    destruct (sendMessage_start_spec _ _ _ H1) as [_ [_ [_ [Hh1 Hm1]]]].
    destruct (sendMessage_start_spec _ _ _ H2) as [_ [_ [_ [Hh2 _]]]].
    unfold setInput in Hh2. cbn [messages] in Hh2. eexists. rewrite Hh1, Hh2.
    destruct (sendMessage_settle_messages o s1) as [E|[text E]];
      rewrite E, Hm1, ?filter_app; rewrite <- ?app_assoc;
      eexists; split; reflexivity.
Qed.

(** C9: the conversation is created as the single system message; in
    every state the panel can reach that message is still the first one
    and the only one with the system role; starting a turn appends the
    user's message and a settled turn appends the assistant's message or
    nothing, the earlier messages staying in place; a reset restores the
    single system message (and clears the input and the error); and the
    history sent with a turn holds no message with the system role: it is
    the conversation without its leading message. *)
Theorem C9_leading_system_message :
  messages initial_state = [system_message] /\
  (forall s, reachable rt s -> led_by_system s) /\
  (forall s s' r,
     sendMessage_start s = Some (s', r) ->
     messages s' = messages s ++ [{| role := user; content := message r |}]) /\
  (forall o s, exists added,
     messages (sendMessage_settle rt o s) = messages s ++ added) /\
  (forall s,
     messages (resetChat s) = [system_message] /\
     input (resetChat s) = "" /\
     error (resetChat s) = None /\
     (loading s = false -> resetChat s = initial_state)) /\
  (forall s s' r,
     sendMessage_start s = Some (s', r) ->
     exists h,
       history r = Some h /\
       Forall (fun m => role m <> system) h /\
       (reachable rt s -> messages s = system_message :: h)).
Proof.
  split; [reflexivity|]. split; [apply reachable_led|]. split; [|split; [|split]].
  - intros s s' r H. now destruct (sendMessage_start_spec _ _ _ H) as [_ [_ [_ [_ E]]]].
  - intros o s. destruct (sendMessage_settle_messages o s) as [E|[text E]]; rewrite E.
    + exists []. now rewrite app_nil_r.
    + eauto.
  - intros s. repeat split. intros L. unfold resetChat. now rewrite L.
  - intros s s' r H. destruct (sendMessage_start_spec _ _ _ H) as [_ [_ [_ [E _]]]].
    eexists. split; [exact E|]. split; [apply filter_non_system_Forall|].
    intros Hr. destruct (reachable_led s Hr) as [rest [Hm Hrest]].
    rewrite Hm. simpl. now rewrite (filter_non_system_id rest Hrest).
Qed.

End Panel.

(** * Concrete runs *)

Example parse_empty_message :
  safeParse chatRequestSchema (JObject [("message", JString "")])
  = Success {| message := ""; history := None |}.
Proof. reflexivity. Qed.

Example parse_bad_history :
  safeParse chatRequestSchema
    (JObject [("history", JArray [JObject bot_entry])])
  = Failure [ {| code := invalid_type; path := [Key "message"];
                 custom_message := None |};
              {| code := invalid_value; path := [Key "history"; Index 0; Key "role"];
                 custom_message := None |};
              {| code := too_small; path := [Key "history"; Index 0; Key "content"];
                 custom_message := Some "Message cannot be empty" |} ].
Proof. reflexivity. Qed.

Example paris_upstream :
  POST sample_runtime api (answers 5 (json_response 200 paris)) hello_request
  = ([Fetched (upstream_call sample_runtime "http://api" hello_request hello_parsed)],
     Ok {| status := 200;
           resp_content_type := "application/json";
           resp_body := JsonBody paris |}).
Proof. reflexivity. Qed.

Example empty_message_is_forwarded :
  POST sample_runtime api (answers 5 (json_response 200 paris)) empty_message_request
  = ([Fetched (upstream_call sample_runtime "http://api" empty_message_request
                 {| message := ""; history := None |})],
     Ok (success_envelope {| reply := "Paris"; handled := true |})).
Proof. reflexivity. Qed.

Example refused_connection :
  POST sample_runtime api (fun _ => Fails 3 refused) hello_request
  = ([Fetched (upstream_call sample_runtime "http://api" hello_request hello_parsed)],
     Ok (unexpected_envelope "[API_CHAT] Unexpected error" "fetch failed")).
Proof. reflexivity. Qed.

Example missing_url :
  POST sample_runtime None (fun _ => Fails 3 refused) hello_request
  = ([], Ok missing_url_envelope).
Proof. reflexivity. Qed.

Example overloaded_upstream :
  POST sample_runtime api (answers 5 (json_response 503 overloaded)) hello_request
  = ([Fetched (upstream_call sample_runtime "http://api" hello_request hello_parsed)],
     Ok (error_envelope 503 (JString "overloaded"))).
Proof. reflexivity. Qed.

Example blank_error_upstream :
  POST sample_runtime api (answers 5 (json_response 503 blank_error)) hello_request
  = ([Fetched (upstream_call sample_runtime "http://api" hello_request hello_parsed)],
     Ok (error_envelope 503 (JString "Upstream error 503"))).
Proof. reflexivity. Qed.

(** A status that admits no body cannot be passed on: building the
    response throws inside the [try] block. *)
Example not_modified_upstream :
  POST sample_runtime api (answers 5 (json_response 304 overloaded)) hello_request
  = ([Fetched (upstream_call sample_runtime "http://api" hello_request hello_parsed)],
     Ok (unexpected_envelope "[API_CHAT] Unexpected error" "runtime error")).
Proof. reflexivity. Qed.

Example upstream_too_slow :
  POST sample_runtime api (answers 30000 (json_response 200 paris)) hello_request
  = ([Fetched (upstream_call sample_runtime "http://api" hello_request hello_parsed);
      Aborted 20000 (reason (AbortSignal_timeout sample_runtime timeout_ms))],
     Ok timeout_envelope).
Proof. reflexivity. Qed.

Example upstream_silent :
  POST sample_runtime api (fun _ => Silent) hello_request
  = ([Fetched (upstream_call sample_runtime "http://api" hello_request hello_parsed);
      Aborted 20000 (reason (AbortSignal_timeout sample_runtime timeout_ms))],
     Ok timeout_envelope).
Proof. reflexivity. Qed.

(** A signal that fires while the JSON body is being read is swallowed by
    [.catch(() => null)]; the empty payload then fails the response
    schema. *)
Example timeout_while_reading_json :
  POST sample_runtime api (answers 5 stalled_response) hello_request
  = ([Fetched (upstream_call sample_runtime "http://api" hello_request hello_parsed);
      Aborted 20000 (reason (AbortSignal_timeout sample_runtime timeout_ms))],
     Ok (unexpected_envelope "[API_CHAT] Unexpected error" "runtime error")).
Proof. reflexivity. Qed.

Example caller_hangs_up :
  POST sample_runtime api (answers 10 (json_response 200 paris)) hangup_request
  = ([Fetched (upstream_call sample_runtime "http://api" hangup_request hello_parsed);
      Aborted 5 hung_up],
     Ok (unexpected_envelope "[API_CHAT] Unexpected error" "client went away")).
Proof. reflexivity. Qed.

Example chatty_request_stripped :
  POST sample_runtime api (answers 5 (json_response 200 chatty_answer))
    (plain_request chatty_data)
  = ([Fetched (upstream_call sample_runtime "http://api" (plain_request chatty_data)
                 chatty_parsed)],
     Ok (success_envelope {| reply := "Paris"; handled := true |})).
Proof. reflexivity. Qed.

Example chatty_request_body :
  body (upstream_call sample_runtime "http://api" (plain_request chatty_data) chatty_parsed)
  = JObject [("message", JString "hello");
             ("history", JArray [JObject [("role", JString "user");
                                          ("content", JString "hi")]])].
Proof. reflexivity. Qed.

Example first_turn :
  sendMessage_start typed_state
  = Some ({| messages := [system_message; {| role := user; content := "Where?" |}];
             input := ""; loading := true; error := None |},
          {| message := "Where?"; history := Some [] |}).
Proof. reflexivity. Qed.

(** ** C1 *)

(** C1, as stated, does not hold: a request whose top-level [message] is
    the empty string is not answered with the validation failure; the
    schema types [message] as [z.string()], so the request passes and is
    sent upstream. *)
Lemma C1_empty_message_not_rejected :
  ~ rejected_before_upstream sample_runtime
      (POST sample_runtime api (answers 5 (json_response 200 paris))
         empty_message_request).
Proof.
  intros [issues [_ H]]. rewrite empty_message_is_forwarded in H. discriminate.
Qed.

Lemma C1_message_must_be_a_string_witness :
  exists parsed,
    safeParse chatRequestSchema (JObject [("message", JString "")]) = Success parsed /\
    message parsed = "" /\
    calls (fst (POST sample_runtime api (answers 5 (json_response 200 paris))
                  empty_message_request))
    = [upstream_call sample_runtime "http://api" empty_message_request parsed].
Proof.
  apply (proj2 (C1_message_must_be_a_string sample_runtime
                  (answers 5 (json_response 200 paris)) empty_message_request
                  "http://api" eq_refl [("message", JString "")] eq_refl));
    reflexivity.
Defined.

(** ** C2 *)

(** C2, as stated, does not hold: neither with the base URL unset nor
    after a refused connection is the body
    [{ error: "Unexpected error", detail }]. *)
Lemma C2_envelope_differs :
  (~ exists t msg,
       POST sample_runtime None (fun _ => Fails 3 refused) hello_request
       = (t, Ok (unexpected_envelope "Unexpected error" msg))) /\
  (~ exists t msg,
       POST sample_runtime api (fun _ => Fails 3 refused) hello_request
       = (t, Ok (unexpected_envelope "Unexpected error" msg))).
Proof.
  split; intros [t [msg H]].
  - rewrite missing_url in H. discriminate.
  - rewrite refused_connection in H. discriminate.
Qed.

Lemma C2_unexpected_error_envelope_witness :
  POST sample_runtime api (fun _ => Fails 3 refused) hello_request
  = ([Fetched (upstream_call sample_runtime "http://api" hello_request hello_parsed)],
     Ok (unexpected_envelope "[API_CHAT] Unexpected error" (err_message refused))).
Proof.
  apply (proj2 (proj2 (C2_unexpected_error_envelope sample_runtime
                         (fun _ => Fails 3 refused) hello_request api))
           "http://api" hello_data hello_parsed 3 refused);
    try reflexivity; discriminate.
Defined.

(** ** C3 *)

(** C3, as stated, does not hold: for an upstream 503 whose JSON body is
    [{ error: "" }] the [error] member is present, yet the relay does not
    answer with its value but with the synthesized text. *)
Lemma C3_present_but_falsy_error :
  claimed_error_message blank_error 503 = JString "" /\
  snd (POST sample_runtime api (answers 5 (json_response 503 blank_error)) hello_request)
  <> Ok (error_envelope 503 (claimed_error_message blank_error 503)).
Proof.
  split; [reflexivity|]. rewrite blank_error_upstream. discriminate.
Qed.

Lemma C3_upstream_failure_passed_on_witness :
  POST sample_runtime api (answers 5 (json_response 503 overloaded)) hello_request
  = ([Fetched (upstream_call sample_runtime "http://api" hello_request hello_parsed)],
     Ok (error_envelope 503 (JString "overloaded"))).
Proof.
  apply (proj2 (C3_upstream_failure_passed_on sample_runtime
                  (answers 5 (json_response 503 overloaded)) hello_request
                  "http://api" eq_refl hello_data hello_parsed eq_refl eq_refl
                  5 (json_response 503 overloaded)
                  eq_refl eq_refl eq_refl eq_refl eq_refl));
    reflexivity.
Defined.

(** ** C4 *)

(** C4, as stated, does not hold: when the caller's signal fires first,
    before the upstream answers, and carries a reason whose name is neither
    AbortError nor TimeoutError, the call is aborted but the response is
    not the 504 timeout envelope. *)
Lemma C4_abort_reason_decides :
  fires_at (req_signal hangup_request) = Some 5 /\
  unsettled_at (answers 10 (json_response 200 paris)
                  (upstream_call sample_runtime "http://api" hangup_request
                     hello_parsed)) 5 /\
  snd (POST sample_runtime api (answers 10 (json_response 200 paris)) hangup_request)
  <> Ok timeout_envelope.
Proof.
  split; [reflexivity|]. split; [simpl; lia|].
  rewrite caller_hangs_up. discriminate.
Qed.

Lemma C4_abort_gives_timeout_envelope_witness :
  POST sample_runtime api (answers 10 (json_response 200 paris)) cancelled_request
  = ([Fetched (upstream_call sample_runtime "http://api" cancelled_request hello_parsed);
      Aborted 5 (reason never)],
     Ok timeout_envelope).
Proof.
  refine (proj2 (proj2 (proj2
            (C4_abort_gives_timeout_envelope sample_runtime
               (answers 10 (json_response 200 paris)) cancelled_request
               "http://api" eq_refl hello_data hello_parsed eq_refl eq_refl _ _)))).
  - vm_compute. discriminate.
  - intros tc _ _. left. reflexivity.
Defined.

(** ** C5 *)

(** C5, as stated, does not hold: an upstream 200 whose JSON body matches
    the response shape and carries one member more is not returned as it
    is; the relay answers with the two members of the shape only. *)
Lemma C5_matching_body_not_verbatim :
  safeParse chatResponseSchema chatty_answer
  = Success {| reply := "Paris"; handled := true |} /\
  snd (POST sample_runtime api (answers 5 (json_response 200 chatty_answer)) hello_request)
  <> Ok {| status := 200;
           resp_content_type := "application/json";
           resp_body := JsonBody chatty_answer |}.
Proof.
  split; [reflexivity|]. vm_compute. discriminate.
Qed.

Lemma C5_upstream_success_passed_on_witness :
  POST sample_runtime api (answers 5 (json_response 200 paris)) hello_request
  = ([Fetched (upstream_call sample_runtime "http://api" hello_request hello_parsed)],
     Ok {| status := 200;
           resp_content_type := "application/json";
           resp_body := JsonBody paris |}).
Proof.
  apply (proj2 (proj2 (proj2
           (C5_upstream_success_passed_on sample_runtime
              (answers 5 (json_response 200 paris)) hello_request
              "http://api" eq_refl hello_data hello_parsed eq_refl eq_refl
              5 (json_response 200 paris)
              eq_refl eq_refl eq_refl eq_refl eq_refl))));
    reflexivity.
Defined.

(** ** C6 *)

Lemma C6_validator_contract_witness :
  exists issues,
    safeParse chatRequestSchema bad_history_data = Failure issues /\
    mentions [Key "history"; Index 0; Key "role"] issues.
Proof.
  apply (proj1 (proj2 (proj2 (proj2
           (C6_validator_contract sample_runtime (fun _ => Silent)
              (plain_request bad_history_data) "http://api" bad_history_data))))
           [("message", JString "hi"); ("history", JArray [JObject bot_entry])]
           [JObject bot_entry] 0%nat bot_entry);
    reflexivity.
Defined.

(** ** C7 *)

Lemma C7_no_network_before_validation_witness :
  exists resp,
    POST sample_runtime None (answers 5 (json_response 200 paris)) hello_request
    = ([], Ok resp) /\ status resp = 500.
Proof.
  apply (proj1 (C7_no_network_before_validation sample_runtime
                  (answers 5 (json_response 200 paris)) hello_request None)).
  reflexivity.
Defined.

(** ** C8 *)

Lemma C8_request_round_trip_witness :
  safeParse chatRequestSchema (ChatRequest_json chatty_parsed) = Success chatty_parsed.
Proof.
  apply (proj1 (C8_request_round_trip sample_runtime "http://api"
                  (answers 5 (json_response 200 paris))
                  (plain_request (ChatRequest_json chatty_parsed))
                  chatty_parsed eq_refl)).
Defined.

(** ** C9 *)

Lemma C9_leading_system_message_witness :
  exists h,
    history {| message := "Where?"; history := Some [] |} = Some h /\
    Forall (fun m => role m <> system) h /\
    (reachable sample_runtime typed_state -> messages typed_state = system_message :: h).
Proof.
  apply (proj2 (proj2 (proj2 (proj2 (proj2
           (C9_leading_system_message sample_runtime)))))
           typed_state
           {| messages := [system_message; {| role := user; content := "Where?" |}];
              input := ""; loading := true; error := None |}).
  reflexivity.
Defined.

(** ** C10 *)

Lemma C10_unknown_members_stripped_witness :
  exists call,
    calls (fst (POST sample_runtime api (answers 5 (json_response 200 chatty_answer))
                  (plain_request chatty_data))) = [call] /\
    (forall k, In k (keys (body call)) -> k = "message" \/ k = "history") /\
    (forall items e,
       prop (body call) "history" = Some (JArray items) ->
       In e items -> keys e = ["role"; "content"]) /\
    prop (body call) "message" = Some (JString "hello") /\
    exists items out,
      JArray [JObject [("content", JString "hi"); ("id", JNumber 7);
                       ("role", JString "user")]] = JArray items /\
      prop (body call) "history" = Some (JArray out) /\
      Forall2 stripped_entry items out.
Proof.
  apply (proj1 (C10_unknown_members_stripped sample_runtime
                  (answers 5 (json_response 200 chatty_answer))
                  (plain_request chatty_data) "http://api" eq_refl
                  chatty_data chatty_parsed eq_refl eq_refl)).
Defined.

(** * Further properties *)

(** ** What the schemas accept *)

(** The request schema accepts a value exactly when the value is an object
    with a string [message] and, if [history] is there, an array of entries
    with a known role and a non-empty content; the result then holds that
    message and, in the same order, those roles and contents. *)
Theorem chatRequestSchema_accepts_exactly data r :
  safeParse chatRequestSchema data = Success r <-> request_matches data r.
Proof. apply chatRequestSchema_success. Qed.

(** The response schema accepts a value exactly when the value is an object
    with a string [reply], the empty string included, and a boolean
    [handled]; the result holds these two. *)
Theorem chatResponseSchema_accepts_exactly v r :
  safeParse chatResponseSchema v = Success r <-> response_matches v r.
Proof. apply chatResponseSchema_success. Qed.

(** Validation is idempotent: the value the request schema returns, written
    out as JSON, passes the schema again and gives the same value. *)
Theorem validation_is_idempotent data r :
  safeParse chatRequestSchema data = Success r ->
  safeParse chatRequestSchema (ChatRequest_json r) = Success r.
Proof.
  intros H. apply ChatRequest_roundtrip. now apply (validated_is_valid data).
Qed.

(** ** Where the issues come from *)

Lemma both_issues {A B C} (mk : A -> B -> C) ra rb issues x :
  both mk ra rb = Failure issues -> In x issues ->
  (exists ia, ra = Failure ia /\ In x ia) \/ (exists ib, rb = Failure ib /\ In x ib).
Proof.
  destruct ra as [a|ia], rb as [b|ib]; simpl; intros H Hx; inversion H; subst; eauto.
  apply in_app_or in Hx. destruct Hx; eauto.
Qed.

Lemma at_path_issues {A} seg (r : SafeParse A) issues x :
  at_path seg r = Failure issues -> In x issues ->
  exists inner y, r = Failure inner /\ In y inner /\ x = under seg y.
Proof.
  destruct r as [a|inner]; simpl; intros H Hx; inversion H; subst.
  apply in_map_iff in Hx. destruct Hx as [y [<- Hy]]. eauto.
Qed.

Lemma parse_items_issues {A} (elem : Schema A) :
  forall items i issues x,
  parse_items elem i items = Failure issues -> In x issues ->
  exists n v bad y,
    nth_error items n = Some v /\ elem (Some v) = Failure bad /\
    In y bad /\ x = under (Index (i + n)) y.
Proof.
  induction items as [|w rest IH]; intros i issues x H Hx; cbn [parse_items] in H.
  - discriminate.
  - destruct (both_issues _ _ _ _ _ H Hx) as [[ia [Ea Ha]]|[ib [Eb Hb]]].
    + destruct (at_path_issues _ _ _ _ Ea Ha) as [bad [y [Ebad [Hy ->]]]].
      exists 0%nat, w, bad, y. rewrite Nat.add_0_r. auto.
    + destruct (IH (S i) ib x Eb Hb) as [n [v [bad [y [Hn [Ev [Hy ->]]]]]]].
      exists (S n), v, bad, y. replace (i + S n)%nat with (S i + n)%nat by lia. auto.
Qed.

Lemma chatMessageSchema_issue_paths input issues x :
  chatMessageSchema input = Failure issues -> In x issues ->
  path x = [] \/ path x = [Key "role"] \/ path x = [Key "content"].
Proof.
  unfold chatMessageSchema, z_object2.
  destruct input as [[| | | | |members]|];
    try (intros H [<-|[]]; inversion H; subst; now left; fail);
    try (intros H Hx; inversion H; subst; destruct Hx as [<-|[]]; now left).
  intros H Hx. destruct (both_issues _ _ _ _ _ H Hx) as [[ia [Ea Ha]]|[ib [Eb Hb]]].
  - destruct (at_path_issues _ _ _ _ Ea Ha) as [bad [y [Ebad [Hy ->]]]].
    right; left. unfold z_enum in Ebad.
    destruct (assoc "role" members) as [[| | |s| |]|];
      try destruct (enum_value roles s);
      inversion Ebad; subst; destruct Hy as [<-|[]]; reflexivity.
  - destruct (at_path_issues _ _ _ _ Eb Hb) as [bad [y [Ebad [Hy ->]]]].
    right; right. unfold z_min, z_string in Ebad.
    destruct (assoc "content" members) as [[| | |s| |]|];
      try destruct (Nat.ltb (String.length s) 1);
      inversion Ebad; subst; destruct Hy as [<-|[]]; reflexivity.
Qed.

(** Every issue the request validator reports comes from a violation at
    the place it names: on a value that is not an object there is one issue,
    at the root; on an object every issue's path is the message, the
    history, an entry of the history at an index that exists, or the role
    or the content of such an entry. *)
Theorem every_issue_points_at_a_field data issues :
  safeParse chatRequestSchema data = Failure issues ->
  match data with
  | JObject _ => Forall (fun x => request_path (history_length data) (path x)) issues
  | _ => issues = [issue_here invalid_type None]
  end.
Proof.
  unfold safeParse, chatRequestSchema, z_object2.
  destruct data as [| | | | |members]; try (intros H; inversion H; reflexivity).
  intros H. apply Forall_forall. intros x Hx.
  destruct (both_issues _ _ _ _ _ H Hx) as [[ia [Ea Ha]]|[ib [Eb Hb]]].
  - destruct (at_path_issues _ _ _ _ Ea Ha) as [bad [y [Ebad [Hy ->]]]].
    left. unfold z_string in Ebad.
    destruct (assoc "message" members) as [[| | |s| |]|];
      inversion Ebad; subst; destruct Hy as [<-|[]]; reflexivity.
  - destruct (at_path_issues _ _ _ _ Eb Hb) as [bad [y [Ebad [Hy ->]]]].
    right. unfold history_length. cbn [prop].
    unfold z_optional, z_array in Ebad.
    destruct (assoc "history" members) as [[| | | |items|]|];
      try (inversion Ebad; subst; destruct Hy as [<-|[]]; now left);
      try discriminate.
    destruct (parse_items chatMessageSchema 0 items) as [h|bad'] eqn:E; [discriminate|].
    inversion Ebad; subst bad'.
    destruct (parse_items_issues _ _ _ _ _ E Hy) as [n [v [bad0 [z [Hn [Ev [Hz ->]]]]]]].
    right. exists n. split; [apply nth_error_Some; congruence|].
    destruct (chatMessageSchema_issue_paths _ _ _ Ev Hz) as [P|[P|P]];
      cbn [under path]; rewrite P; auto.
Qed.

(** ** Reading an outcome backwards *)

Lemma bind_Ok {A B} (m : M A) (f : A -> M B) tr b :
  bind m f = (tr, Ok b) ->
  exists t1 a t2, m = (t1, Ok a) /\ f a = (t2, Ok b) /\ tr = t1 ++ t2.
Proof.
  destruct m as [t1 [a|e|]]; simpl; try discriminate.
  destruct (f a) as [t2 r] eqn:E. intros H. inversion H; subst.
  exists t1, a, t2. auto.
Qed.

Lemma try_catch_Ok {A} (m : M A) (h : JsError -> M A) tr a :
  try_catch m h = (tr, Ok a) ->
  m = (tr, Ok a) \/
  exists t1 e t2, m = (t1, Throw e) /\ h e = (t2, Ok a) /\ tr = t1 ++ t2.
Proof.
  destruct m as [t1 [x|e|]]; simpl; try discriminate.
  - intros H. now left.
  - destruct (h e) as [t2 r] eqn:E. intros H. inversion H; subst.
    right. exists t1, e, t2. auto.
Qed.

Lemma settle_Ok {A} sig t (r : Result A) tr a :
  settle sig t r = (tr, Ok a) ->
  r = Ok a /\ tr = [] /\ exists t', t = Some t' /\ fired_by sig t' = false.
Proof.
  unfold settle, fired_by.
  destruct (fires_at sig) as [ts|], t as [t'|]; try discriminate.
  - destruct (ts <=? t') eqn:E; [discriminate|].
    intros H. inversion H; subst. eauto.
  - intros H. inversion H; subst. eauto.
Qed.

Lemma fetch_Ok net call tr res :
  fetch net call = (tr, Ok res) ->
  tr = [Fetched call] /\
  exists t, net call = Responds t res /\ fired_by (signal call) t = false.
Proof.
  unfold fetch. intros H. apply bind_Ok in H.
  destruct H as [t1 [u [t2 [H1 [H2 ->]]]]]. inversion H1; subst t1.
  destruct (net call) as [t res'|t err|]; apply settle_Ok in H2;
    destruct H2 as [Hr [-> [t' [Ht Hq]]]]; try discriminate.
  inversion Hr; inversion Ht; subst. eauto.
Qed.

Lemma read_payload_Ok rt sig res tr p :
  read_payload rt sig res = (tr, Ok p) ->
  (fired_by sig (body_at res) = false /\ p = payload_of res /\ tr = []) \/
  (includes "application/json" (contentType_of res) = true /\ p = JNull).
Proof.
  unfold read_payload, payload_of, res_json, res_text.
  destruct (includes "application/json" (contentType_of res)) eqn:J.
  - destruct (settle sig (Some (body_at res)) _) as [t [v|e|]] eqn:E; simpl;
      intros H; inversion H; subst; auto.
    apply settle_Ok in E. destruct E as [Hr [-> [t' [Ht Hq]]]].
    inversion Ht; subst t'. left.
    destruct (json_body res); inversion Hr; auto.
  - intros H. apply bind_Ok in H. destruct H as [t1 [text [t2 [H1 [H2 ->]]]]].
    apply settle_Ok in H1. destruct H1 as [Hr [-> [t' [Ht Hq]]]].
    inversion Ht; subst t'. inversion Hr; subst. inversion H2; subst. auto.
Qed.

Lemma NextResponse_json_Ok rt v s resp :
  NextResponse_json rt v s = Ok resp ->
  sendable s = true /\ status resp = s /\ resp_body resp = JsonBody v.
Proof.
  unfold NextResponse_json, sendable.
  rewrite (N.ltb_antisym 200 s), (N.ltb_antisym s 599).
  destruct (200 <=? s), (s <=? 599), (null_body_status s); simpl;
    intros H; inversion H; auto.
Qed.

Lemma respond_Ok rt res p tr resp :
  respond rt res p = (tr, Ok resp) ->
  (res_ok res = false /\ status resp = res_status res) \/
  (res_ok res = true /\ status resp = 200 /\
   (includes "application/json" (contentType_of res) = true ->
    exists r, safeParse chatResponseSchema p = Success r)).
Proof.
  unfold respond. destruct (res_ok res); cbn [negb].
  - destruct (includes "application/json" (contentType_of res)).
    + unfold parse. destruct (safeParse chatResponseSchema p) as [r|issues];
        simpl; intros H; inversion H; subst. right. simpl. eauto.
    + intros H. inversion H; subst. right. simpl.
      repeat split; trivial. discriminate.
  - unfold lift. intros H. inversion H as [[Ht Hr]].
    apply NextResponse_json_Ok in Hr. left. tauto.
Qed.

Lemma on_error_Ok rt err tr resp :
  on_error rt err = (tr, Ok resp) ->
  tr = [] /\
  ((abort_named err /\ resp = timeout_envelope) \/
   (~ abort_named err /\
    resp = unexpected_envelope "[API_CHAT] Unexpected error" (err_message err))).
Proof.
  unfold on_error, abort_named.
  destruct (String.eqb_spec (name err) "AbortError") as [A|A];
    destruct (String.eqb_spec (name err) "TimeoutError") as [T|T];
    cbn [orb]; intros H; inversion H; subst; split; trivial;
    try (left; split; [auto|reflexivity]).
  right. split; [|reflexivity]. intros [E|E]; contradiction.
Qed.

Lemma null_is_no_response : forall r, safeParse chatResponseSchema JNull <> Success r.
Proof. intros r. discriminate. Qed.

(** ** The route: where each answer comes from *)

Section Answers.

Variable rt : Runtime.
Variable net : Network.
Variable req : NextRequest.


(** Every answer has one of four origins.  The configuration guard: 500
    [{ error: "API_URL not found" }], no network event.  The validation:
    400 with the issues of the request body, no network event.  The
    [catch] block, for an error thrown in the [try] block: the 504 timeout
    envelope when the error is named AbortError or TimeoutError, otherwise
    the 500 envelope with the error's message.  The upstream's answer to
    the one call made, its headers having arrived before the signal fired:
    200 only when the upstream answered 2xx and the body too arrived before
    the signal fired, the upstream's own status when that is not 2xx. *)
Theorem POST_answer_origin API_URL tr resp :
  POST rt API_URL net req = (tr, Ok resp) ->
  (unset API_URL = true /\ tr = [] /\ resp = missing_url_envelope) \/
  (exists data issues,
     unset API_URL = false /\
     req_body req = Some data /\
     safeParse chatRequestSchema data = Failure issues /\
     tr = [] /\ resp = invalid_envelope rt issues) \/
  (exists base err,
     API_URL = Some base /\ base <> "" /\
     relay rt base net req = (tr, Throw err) /\
     ((abort_named err /\ resp = timeout_envelope) \/
      (~ abort_named err /\
       resp = unexpected_envelope "[API_CHAT] Unexpected error" (err_message err)))) \/
  (exists base data parsed t res,
     API_URL = Some base /\ base <> "" /\
     req_body req = Some data /\
     safeParse chatRequestSchema data = Success parsed /\
     calls tr = [upstream_call rt base req parsed] /\
     net (upstream_call rt base req parsed) = Responds t res /\
     quiet_until rt req t /\
     ((res_ok res = true /\ status resp = 200 /\ quiet_until rt req (body_at res)) \/
      (res_ok res = false /\ status resp = res_status res))).
Proof.
  intros H. destruct (unset API_URL) eqn:U.
  - rewrite (POST_unset rt net req _ U) in H. inversion H; subst. now left.
  - destruct API_URL as [base|]; [|discriminate].
    assert (base <> "") as Hbase.
    { intros ->. discriminate. }
    rewrite (POST_configured rt net req base U) in H.
    apply try_catch_Ok in H.
    destruct H as [H|[t1 [e [t2 [Hr [He ->]]]]]].
    + destruct (req_body req) as [data|] eqn:Hb;
        [|rewrite (relay_undecodable rt net req base Hb) in H; discriminate].
      destruct (safeParse chatRequestSchema data) as [parsed|issues] eqn:Hp.
      * pose proof (POST_calls_valid rt net req base U data parsed Hb Hp) as Hc.
        rewrite (POST_configured rt net req base U) in Hc.
        rewrite try_catch_calls, H in Hc. cbn [fst] in Hc.
        rewrite (relay_valid rt net req base data parsed Hb Hp) in H.
        apply bind_Ok in H. destruct H as [t1 [res [t2 [Hf [H ->]]]]].
        apply fetch_Ok in Hf. destruct Hf as [-> [t [Hn Hq]]].
        apply bind_Ok in H. destruct H as [t3 [p [t4 [Hr [H ->]]]]].
        apply read_payload_Ok in Hr. apply respond_Ok in H.
        right; right; right. exists base, data, parsed, t, res.
        repeat (split; trivial).
        destruct H as [[Hok Hs]|[Hok [Hs Hj]]]; [now right|left].
        repeat (split; trivial).
        destruct Hr as [[Hq' _]|[J ->]]; trivial.
        destruct (Hj J) as [r Hr]. now elim (null_is_no_response r).
      * rewrite (relay_invalid rt net req base data issues Hb Hp) in H.
        inversion H; subst. right; left. exists data, issues. auto.
    + apply on_error_Ok in He. destruct He as [-> He].
      right; right; left. exists base, e. rewrite app_nil_r. auto.
Qed.

End Answers.

Lemma fired_by_relay_signal rt req t :
  fired_by (relay_signal rt req) t = (abort_time req <=? t).
Proof. unfold fired_by. now rewrite relay_signal_fires. Qed.

Lemma read_payload_cut_json rt sig res ts :
  fires_at sig = Some ts ->
  ts <= body_at res ->
  includes "application/json" (contentType_of res) = true ->
  read_payload rt sig res = ([Aborted ts (reason sig)], Ok JNull).
Proof.
  intros Hs Hle J. unfold read_payload, res_json, settle. rewrite J, Hs.
  apply N.leb_le in Hle. rewrite Hle. reflexivity.
Qed.

Lemma read_payload_cut_text rt sig res ts :
  fires_at sig = Some ts ->
  ts <= body_at res ->
  includes "application/json" (contentType_of res) = false ->
  read_payload rt sig res = ([Aborted ts (reason sig)], Throw (reason sig)).
Proof.
  intros Hs Hle J. unfold read_payload, res_text, settle. rewrite J, Hs.
  apply N.leb_le in Hle. rewrite Hle. reflexivity.
Qed.

Lemma synthesized_for_null s :
  truthy_error_message JNull s = JString ("Upstream error " ++ decimal s)%string.
Proof. reflexivity. Qed.

Section OneInvocation.

Variable rt : Runtime.
Variable net : Network.
Variable req : NextRequest.

(** No retries: the trace of an invocation holds no upstream call or
    exactly one, a POST to [<base>/chat] with the JSON content type, no
    caching, under the signal that fires after 20 seconds at the latest. *)
Theorem at_most_one_upstream_call API_URL :
  calls (fst (POST rt API_URL net req)) = [] \/
  exists base c,
    API_URL = Some base /\
    calls (fst (POST rt API_URL net req)) = [c] /\
    url c = (base ++ "/chat")%string /\
    method c = "POST" /\
    headers c = [("Content-Type", "application/json")] /\
    cache c = "no-store" /\
    exists ts, fires_at (signal c) = Some ts /\ ts <= 20000.
Proof.
  destruct (fst (POST rt API_URL net req)) as [|e tr] eqn:E; [now left|].
  destruct (POST_trace_needs_valid rt net req API_URL) as [U [data [parsed [Hb Hp]]]];
    [rewrite E; discriminate|].
  destruct API_URL as [base|]; [|discriminate].
  right. exists base, (upstream_call rt base req parsed). rewrite <- E.
  split; trivial.
  split; [exact (POST_calls_valid rt net req base U data parsed Hb Hp)|].
  repeat (split; trivial).
  exists (abort_time req). split; [apply relay_signal_fires|].
  unfold abort_time, timeout_ms. destruct (fires_at (req_signal req)); lia.
Qed.

Section Configured.

Variable base : string.
Hypothesis configured : unset (Some base) = false.

(** A request body that does not decode as JSON is not reported as a
    validation failure: [req.json()] throws inside the [try] block, the
    answer is the 500 envelope with the decoder's message as detail, and
    the network sees nothing. *)
Theorem undecodable_body_gives_500 :
  req_body req = None ->
  POST rt (Some base) net req
  = ([], Ok (unexpected_envelope "[API_CHAT] Unexpected error"
               (error_text rt BadJson))).
Proof.
  intros Hb.
  rewrite (POST_configured rt net req base configured),
    (relay_undecodable rt net req base Hb).
  reflexivity.
Qed.

Section Validated.

Variable data : JSON.
Variable parsed : ChatRequest.
Hypothesis decoded : req_body req = Some data.
Hypothesis validated : safeParse chatRequestSchema data = Success parsed.

Local Abbreviation call := (upstream_call rt base req parsed).

(** A 2xx answer whose content type is not JSON is passed through as text:
    the status becomes 200 whatever 2xx status the upstream gave, the body
    is the upstream's text, and the content type is the upstream's, or
    [text/plain] when the upstream named none. *)
Theorem text_answer_passed_through t res :
  net call = Responds t res ->
  quiet_until rt req t ->
  quiet_until rt req (body_at res) ->
  res_ok res = true ->
  includes "application/json" (contentType_of res) = false ->
  POST rt (Some base) net req
  = ([Fetched call],
     Ok {| status := 200;
           resp_content_type :=
             match content_type res with
             | Some c => if String.eqb c "" then "text/plain" else c
             | None => "text/plain"
             end;
           resp_body := TextBody (text_body res) |}).
Proof.
  intros Hn Ht Hbody Hok J.
  apply (POST_answered rt net req base configured data parsed decoded validated
           t res _ Hn Ht Hbody).
  unfold respond, payload_of. rewrite Hok, J. cbn [negb ret js_String].
  repeat f_equal. unfold contentType_of, or_else.
  destruct (content_type res) as [c|]; [|reflexivity].
  destruct (String.eqb c "") eqn:E; rewrite ?E; reflexivity.
Qed.

(** When the signal fires after the upstream's headers have arrived but
    before its body has: with a content type that is not JSON the pending
    [res.text()] throws and the answer is the 504 timeout envelope (for a
    reason named AbortError or TimeoutError); with a JSON content type the
    rejection is swallowed by [.catch(() => null)], so a 2xx answer ends in
    the 500 envelope with the validation error of [null] as detail, and a
    non-2xx answer is passed on with the synthesized message. *)
Theorem abort_while_reading_the_body t res :
  net call = Responds t res ->
  quiet_until rt req t ->
  abort_time req <= body_at res ->
  (includes "application/json" (contentType_of res) = false ->
   abort_named (reason (signal call)) ->
   POST rt (Some base) net req
   = ([Fetched call; Aborted (abort_time req) (reason (signal call))],
      Ok timeout_envelope)) /\
  (includes "application/json" (contentType_of res) = true ->
   res_ok res = true ->
   POST rt (Some base) net req
   = ([Fetched call; Aborted (abort_time req) (reason (signal call))],
      Ok (unexpected_envelope "[API_CHAT] Unexpected error"
            (error_text rt (ZodIssues [issue_here invalid_type None]))))) /\
  (includes "application/json" (contentType_of res) = true ->
   res_ok res = false ->
   sendable (res_status res) = true ->
   POST rt (Some base) net req
   = ([Fetched call; Aborted (abort_time req) (reason (signal call))],
      Ok (error_envelope (res_status res)
            (JString ("Upstream error " ++ decimal (res_status res))%string)))).
Proof.
  intros Hn Ht Hle.
  pose proof (relay_valid rt net req base data parsed decoded validated) as R.
  rewrite (fetch_delivers net call t res Hn Ht) in R. cbn [bind] in R.
  split; [|split].
  - intros J Hnamed.
    rewrite (read_payload_cut_text rt _ res _ (relay_signal_fires rt req) Hle J) in R.
    cbn [bind app] in R.
    exact (POST_aborted rt net req base configured _ _ R Hnamed).
  - intros J Hok.
    rewrite (read_payload_cut_json rt _ res _ (relay_signal_fires rt req) Hle J) in R.
    cbn [bind] in R.
    rewrite (respond_malformed rt res JNull [issue_here invalid_type None] Hok J eq_refl)
      in R.
    cbn [app] in R.
    rewrite (POST_thrown rt net req base configured _ _ R); [reflexivity| |];
      discriminate.
  - intros J Hok Hs.
    rewrite (read_payload_cut_json rt _ res _ (relay_signal_fires rt req) Hle J) in R.
    cbn [bind] in R.
    rewrite (respond_failure rt res JNull Hok Hs), synthesized_for_null in R.
    cbn [app] in R.
    rewrite (POST_configured rt net req base configured), R. reflexivity.
Qed.

End Validated.

End Configured.

End OneInvocation.


(** ** lib/api.ts *)

Lemma strip_append_slash s : strip_trailing_slash (s ++ "/")%string = s.
Proof.
  induction s as [|c r IH]; [reflexivity|].
  cbn [String.append strip_trailing_slash].
  destruct r as [|d r']; [reflexivity|].
  cbn [String.append] in *. now rewrite IH.
Qed.

Lemma strip_without_slash s :
  (forall p, s <> (p ++ "/")%string) -> strip_trailing_slash s = s.
Proof.
  induction s as [|c r IH]; intros H; [reflexivity|].
  cbn [strip_trailing_slash]. destruct r as [|d r'].
  - destruct (Ascii.eqb_spec c "/"%char) as [->|_]; [|reflexivity].
    now elim (H ""%string).
  - rewrite IH; [reflexivity|]. intros p E.
    apply (H (String c p)). cbn [String.append]. now rewrite E.
Qed.

Lemma strip_or_keep s :
  strip_trailing_slash s = s \/ s = (strip_trailing_slash s ++ "/")%string.
Proof.
  induction s as [|c r IH]; [now left|].
  cbn [strip_trailing_slash]. destruct r as [|d r'].
  - destruct (Ascii.eqb_spec c "/"%char) as [->|_]; [now right|now left].
  - destruct IH as [IH|IH].
    + left. now rewrite IH.
    + right. cbn [String.append]. now rewrite <- IH.
Qed.

(** The base URL loses a slash at its very end, and only that one: a value
    with a slash added comes back as it was, and every value is either kept
    as it is or is its base followed by one slash. *)
Theorem API_BASE_strips_one_slash s :
  API_BASE (Some (s ++ "/")%string) = s /\
  (API_BASE (Some s) = s \/ s = (API_BASE (Some s) ++ "/")%string).
Proof.
  split; [apply strip_append_slash|apply strip_or_keep].
Qed.

Lemma API_BASE_empty env :
  API_BASE env = "" <-> env = None \/ env = Some "" \/ env = Some "/".
Proof.
  split.
  - destruct env as [s|]; [|now left]. unfold API_BASE.
    destruct s as [|c r]; [now right; left|].
    cbn [strip_trailing_slash]. destruct r as [|d r']; [|discriminate].
    destruct (Ascii.eqb_spec c "/"%char) as [->|_]; [now right; right|discriminate].
  - intros [->|[->| ->]]; reflexivity.
Qed.

Lemma caught_json rt sig res ts :
  fires_at sig = Some ts ->
  exists tr isError,
    catch_with JNull (res_json rt sig res) = (tr, Ok isError) /\
    (fired_by sig (body_at res) = false ->
     forall v, json_body res = Some v -> isError = v).
Proof.
  intros Hs. unfold res_json, settle, fired_by. rewrite Hs.
  destruct (ts <=? body_at res).
  - eexists. eexists. split; [reflexivity|discriminate].
  - destruct (json_body res) as [v|]; eexists; eexists; (split; [reflexivity|]);
      intros _ w Hw; inversion Hw; reflexivity.
Qed.


Section PostJSON.

Variable rt : Runtime.
Variable env : option string.
Variable net : Network.
Variable pathname : string.
Variable body : JSON.
Variable opts : FetchOptions.

Local Abbreviation call := (postJSON_call env pathname body opts).
Local Abbreviation ms := (match timeoutMs opts with Some ms => ms | None => 20000 end).

(** Without a base URL, and a base URL that is just a slash counts as
    none, [postJSON] throws before it builds a request: the network sees
    nothing. *)
Theorem postJSON_needs_a_base :
  env = None \/ env = Some "" \/ env = Some "/" ->
  postJSON rt env net pathname body opts
  = ([], Throw (new_Error "NEXT_PUBLIC_API_URL is not set")).
Proof.
  intros H. apply API_BASE_empty in H. unfold postJSON. now rewrite H.
Qed.

Hypothesis base_set : API_BASE env <> "".

Lemma postJSON_set :
  postJSON rt env net pathname body opts
  = try_catch
      (res <- fetch net call ;;
       let isJson := includes "application/json" (contentType_of res) in
       if negb (res_ok res) then
         isError <- (if isJson then catch_with JNull (res_json rt (signal call) res)
                     else ret JNull) ;;
         lift (Throw (new_Error
                        (js_String_opt (request_failed_message isError (res_status res)))))
       else if isJson then res_json rt (signal call) res
       else text <- res_text (signal call) res ;; ret (JString text))
      (fun error =>
         if String.eqb (name error) "AbortError"
         then lift (Throw (new_Error "Request timed out"))
         else lift (Throw error)).
Proof.
  unfold postJSON. apply String.eqb_neq in base_set. now rewrite base_set.
Qed.




End PostJSON.

Section PostJSONOutcomes.

Variable rt : Runtime.
Variable env : option string.
Variable net : Network.
Variable pathname : string.
Variable body : JSON.
Variable opts : FetchOptions.

Local Abbreviation call := (postJSON_call env pathname body opts).
Local Abbreviation ms := (match timeoutMs opts with Some ms => ms | None => 20000 end).


(** [postJSON] always settles, the timer seeing to it, and the error it
    throws is never an AbortError: an abort is reported as a plain error
    [Request timed out]. *)
Theorem postJSON_settles_without_AbortError :
  snd (postJSON rt env net pathname body opts) <> Pending /\
  forall e, snd (postJSON rt env net pathname body opts) = Throw e ->
            name e <> "AbortError".
Proof.
  destruct (String.eqb (API_BASE env) "") eqn:B.
  - unfold postJSON. rewrite B. split; [discriminate|].
    intros e H. inversion H. discriminate.
  - apply String.eqb_neq in B. rewrite (postJSON_set rt env net pathname body opts B).
    match goal with |- context [try_catch ?m ?h] =>
      assert (snd m <> Pending) as Hm; [|destruct m as [t [v|e|]]] end.
    + apply bind_settles; [apply (fetch_settles net call ms eq_refl)|].
      intros res. destruct (negb (res_ok res)).
      * apply bind_settles; [|intros; discriminate].
        destruct (includes "application/json" (contentType_of res)); [|discriminate].
        destruct (caught_json rt (signal call) res ms eq_refl) as [tr [x [E _]]].
        rewrite E. discriminate.
      * destruct (includes "application/json" (contentType_of res)).
        -- unfold res_json.
           apply (settle_not_pending (signal call) _ _ ms eq_refl).
           left. destruct (json_body res); discriminate.
        -- apply bind_settles; [|intros; discriminate].
           apply (settle_not_pending (signal call) _ _ ms eq_refl).
           left. discriminate.
    + split; [discriminate|]. intros e H. discriminate.
    + cbn [try_catch]. destruct (String.eqb (name e) "AbortError") eqn:E;
        cbn [lift app snd]; (split; [discriminate|]);
        intros e' H; inversion H; subst; [discriminate|].
      now apply String.eqb_neq.
    + now elim Hm.
Qed.

End PostJSONOutcomes.

(** ** The panel, its input and its list *)

Lemma sendMessage_start_None s :
  sendMessage_start s = None <-> send_disabled (input s) (loading s) = true.
Proof.
  unfold sendMessage_start, send_disabled. rewrite orb_comm.
  destruct (loading s || String.eqb (trim (input s)) ""); split; intros H;
    trivial; discriminate.
Qed.

(** The Send button and [sendMessage] agree: the button is disabled
    exactly when [sendMessage] would do nothing, so a click starts the
    turn [sendMessage] starts, and the Enter key, which does not look at
    the button, cannot start a turn the button would not allow. *)
Theorem send_button_agrees_with_sendMessage s :
  (sendMessage_start s = None <-> send_disabled (input s) (loading s) = true) /\
  ChatInput_click s = sendMessage_start s /\
  (forall e x, ChatInput_keydown e s = Some x ->
     key e = "Enter" /\ shiftKey e = false /\
     send_disabled (input s) (loading s) = false /\
     ChatInput_click s = Some x).
Proof.
  pose proof (sendMessage_start_None s) as H.
  assert (ChatInput_click s = sendMessage_start s) as Hc.
  { unfold ChatInput_click.
    destruct (send_disabled (input s) (loading s)); trivial.
    symmetry. now apply H. }
  split; [exact H|]. split; [exact Hc|].
  intros e x. unfold ChatInput_keydown, handleKeyDown.
  destruct (String.eqb_spec (key e) "Enter") as [K|_]; [|discriminate].
  destruct (shiftKey e); [discriminate|]. cbn [negb andb]. intros Hx.
  repeat split; trivial; [|now rewrite Hc].
  destruct (send_disabled (input s) (loading s)); trivial.
  rewrite (proj2 H eq_refl) in Hx. discriminate.
Qed.

Section PanelMore.

Variable rt : Runtime.

Lemma sendMessage_settle_loading o s : loading (sendMessage_settle rt o s) = false.
Proof. reflexivity. Qed.

Lemma one_turn_at_a_time_aux s s' r :
  sendMessage_start s = Some (s', r) ->
  loading (resetChat s') = true /\
  (forall w, sendMessage_start (setInput w (resetChat s')) = None).
Proof.
  intros H. unfold sendMessage_start in H.
  destruct (String.eqb (trim (input s)) "") eqn:E; [discriminate|].
  destruct (loading s) eqn:L; [discriminate|]. simpl in H. inversion H; subst.
  split; [reflexivity|]. intros w. unfold sendMessage_start.
  cbn [loading setInput resetChat]. now rewrite orb_true_r.
Qed.

(** One turn at a time: once a turn has started, no typing and no reset
    lets a second one start before the first has settled; a settled turn
    lets the next one start. *)
Theorem one_turn_at_a_time s s' r :
  sendMessage_start s = Some (s', r) ->
  loading s = false /\
  loading s' = true /\
  (forall v, sendMessage_start (setInput v s') = None) /\
  (forall v, sendMessage_start (setInput v (resetChat s')) = None) /\
  (forall o v, trim v <> "" ->
     exists s2 r2, sendMessage_start (setInput v (sendMessage_settle rt o s')) = Some (s2, r2)).
Proof.
  intros H. unfold sendMessage_start in H.
  destruct (String.eqb (trim (input s)) "") eqn:E; [discriminate|].
  destruct (loading s) eqn:L; [discriminate|]. simpl in H. inversion H; subst.
  split; trivial. split; [reflexivity|]. split; [|split].
  - intros v. unfold sendMessage_start. cbn [loading setInput].
    now rewrite orb_true_r.
  - intros v. unfold sendMessage_start. cbn [loading setInput resetChat].
    now rewrite orb_true_r.
  - intros o v Hv. unfold sendMessage_start.
    cbn [input setInput]. apply String.eqb_neq in Hv. rewrite Hv.
    change (loading (setInput v ?x)) with (loading x).
    rewrite sendMessage_settle_loading. simpl. eauto.
Qed.

Lemma settle_failed_response res s payload label :
  replied_ok res = false ->
  match client_json rt res with Ok v => v | _ => JNull end = payload ->
  js_String_opt
    (js_or (js_or (js_and (Some payload) (prop payload "error"))
                  (js_and (Some payload) (prop payload "message")))
           (Some (JString ("Request failed with status "
                           ++ decimal (status res))%string))) = label ->
  sendMessage_settle rt (Replied res) s
  = {| messages := messages s; input := input s; loading := false;
       error := Some label |}.
Proof.
  unfold replied_ok. intros Hok <- <-. unfold sendMessage_settle.
  rewrite Hok. reflexivity.
Qed.

Lemma banner_of_error_member v label fallback :
  prop v "error" = Some (JString label) -> label <> "" ->
  js_or (js_or (js_and (Some v) (prop v "error")) (js_and (Some v) (prop v "message")))
        fallback
  = Some (JString label).
Proof.
  intros He Hne. unfold js_or, js_and.
  destruct v; try discriminate. cbn [truthy truthy_opt].
  rewrite He. cbn [truthy_opt truthy].
  apply String.eqb_neq in Hne. rewrite Hne. cbn [negb truthy_opt truthy].
  rewrite Hne. reflexivity.
Qed.

(** A turn that fails leaves the conversation as it is, the user's message
    included, ends the loading state and shows an error: the error's
    message when the call itself fails; for a non-2xx answer whose body,
    of whichever content type, decodes as JSON, the [error] member when
    that is a non-empty string; and [Request failed with status <status>]
    for a non-2xx answer whose body does not decode as JSON. *)
Theorem failed_turn_shows_an_error s :
  (forall err,
     sendMessage_settle rt (Rejected err) s
     = {| messages := messages s; input := input s; loading := false;
          error := Some (err_message err) |}) /\
  (forall res v label,
     replied_ok res = false ->
     client_json rt res = Ok v ->
     prop v "error" = Some (JString label) ->
     label <> "" ->
     sendMessage_settle rt (Replied res) s
     = {| messages := messages s; input := input s; loading := false;
          error := Some label |}) /\
  (forall res err,
     replied_ok res = false ->
     client_json rt res = Throw err ->
     sendMessage_settle rt (Replied res) s
     = {| messages := messages s; input := input s; loading := false;
          error := Some ("Request failed with status " ++ decimal (status res))%string |}).
Proof.
  split; [reflexivity|]. split.
  - intros res v label Hok Hd He Hne.
    apply (settle_failed_response res s v); trivial; [now rewrite Hd|].
    now rewrite (banner_of_error_member v label _ He Hne).
  - intros res err Hok Hd.
    apply (settle_failed_response res s JNull); trivial. now rewrite Hd.
Qed.

Lemma settle_reply res s v text :
  replied_ok res = true ->
  resp_body res = JsonBody v ->
  prop v "reply" = Some (JString text) ->
  sendMessage_settle rt (Replied res) s
  = {| messages := messages s ++ [{| role := assistant; content := text |}];
       input := input s; loading := false; error := error s |}.
Proof.
  unfold replied_ok. intros Hok Hb Hr. unfold sendMessage_settle.
  rewrite Hok. cbn [negb]. unfold client_json. rewrite Hb.
  destruct v; try discriminate. unfold reply_text. rewrite Hr. reflexivity.
Qed.

(** A reset does not cancel a turn in flight: the panel stays in its
    loading state, no new turn can start, and when the answer arrives it
    is appended to the fresh conversation, whose question is gone. *)
Theorem reset_does_not_cancel_a_turn s s' r res v text :
  sendMessage_start s = Some (s', r) ->
  replied_ok res = true ->
  resp_body res = JsonBody v ->
  prop v "reply" = Some (JString text) ->
  loading (resetChat s') = true /\
  (forall w, sendMessage_start (setInput w (resetChat s')) = None) /\
  messages (sendMessage_settle rt (Replied res) (resetChat s'))
  = [system_message; {| role := assistant; content := text |}].
Proof.
  intros H Hok Hb Hr.
  destruct (one_turn_at_a_time_aux s s' r H) as [L N].
  split; [exact L|]. split; [exact N|].
  rewrite (settle_reply res _ v text Hok Hb Hr). reflexivity.
Qed.

End PanelMore.

(** ** The panel and the route together *)

Lemma json_entries_not_empty h :
  forall h', Forall2 entry_matches (map ChatMessage_json h) h' ->
  forallb (fun m => negb (String.eqb (content m) "")) h = true.
Proof.
  induction h as [|m rest IH]; intros h' H; [reflexivity|].
  inversion H as [|e m' items rest' [_ [Hc Hne]] Hrest]; subst.
  simpl in Hc. inversion Hc as [Hcm]. cbn [forallb].
  rewrite Hcm. apply String.eqb_neq in Hne. rewrite Hne. simpl.
  now apply (IH rest').
Qed.

Lemma json_form_accepted r :
  (exists parsed, safeParse chatRequestSchema (ChatRequest_json r) = Success parsed) <->
  valid_request r = true.
Proof.
  split.
  - intros [parsed H]. apply chatRequestSchema_success in H. destruct H as [_ H].
    unfold valid_request. unfold ChatRequest_json in H.
    destruct (history r) as [h|]; [|reflexivity]. simpl in H.
    destruct (history parsed) as [h'|]; [|contradiction].
    now apply (json_entries_not_empty h h').
  - intros H. exists r. now apply ChatRequest_roundtrip.
Qed.

Section Together.

Variable rt : Runtime.

Lemma step_keeps_users_spoke s s' :
  step rt s s' -> users_spoke (messages s) -> users_spoke (messages s').
Proof.
  unfold users_spoke. intros Hstep H. destruct Hstep as [v s|s s' req Hs|o s|s].
  - exact H.
  - destruct (sendMessage_start_spec _ _ _ Hs) as [_ [Hne [_ [_ Hm]]]].
    rewrite Hm. apply Forall_app. split; trivial.
    constructor; [|constructor]. intros _. exact Hne.
  - destruct (sendMessage_settle_messages rt o s) as [E|[text E]]; rewrite E; trivial.
    apply Forall_app. split; trivial. constructor; [|constructor]. discriminate.
  - constructor; [discriminate|constructor].
Qed.

Lemma reachable_users_spoke s : reachable rt s -> users_spoke (messages s).
Proof.
  induction 1 as [|s s' _ IH Hstep].
  - constructor; [discriminate|constructor].
  - exact (step_keeps_users_spoke s s' Hstep IH).
Qed.

Lemma history_valid_iff msgs :
  users_spoke msgs ->
  forallb (fun m => negb (String.eqb (content m) ""))
          (filter (fun m => negb (is_system m)) msgs) = true
  <-> assistant_spoke msgs.
Proof.
  unfold users_spoke, assistant_spoke. intros Hu.
  rewrite forallb_forall, !Forall_forall in *. split.
  - intros H m Hm Hr. specialize (H m).
    rewrite filter_In in H. unfold is_system in H. rewrite Hr in H.
    specialize (H (conj Hm eq_refl)). apply negb_true_iff in H.
    now apply String.eqb_neq.
  - intros H m Hm. apply filter_In in Hm. destruct Hm as [Hm Hs].
    apply negb_true_iff. apply String.eqb_neq.
    unfold is_system in Hs. destruct (role m) eqn:R; [|now apply H|discriminate].
    now apply Hu.
Qed.

(** In every state the panel can reach, the request a turn sends passes
    the route's validation exactly when no assistant message of the
    conversation is empty: the user's own messages never are, but an empty
    reply is kept as a message and sent back as history. *)
Theorem panel_request_accepted_iff s s' r :
  reachable rt s ->
  sendMessage_start s = Some (s', r) ->
  users_spoke (messages s) /\
  ((exists parsed, safeParse chatRequestSchema (ChatRequest_json r) = Success parsed)
   <-> assistant_spoke (messages s)).
Proof.
  intros Hr Hs. pose proof (reachable_users_spoke s Hr) as Hu.
  split; trivial. rewrite json_form_accepted.
  destruct (sendMessage_start_spec _ _ _ Hs) as [_ [_ [_ [Hh _]]]].
  unfold valid_request. rewrite Hh. now apply history_valid_iff.
Qed.

Variable net : Network.
Variable base : string.
Variable caller : AbortSignal.
Hypothesis configured : unset (Some base) = false.

(** Once an empty assistant message is part of the conversation, every
    later turn is refused by the route: the request's history holds the
    empty content, the route answers with the validation failure that
    names that entry's content without calling the upstream, and the panel
    appends the user's message and shows [Invalid request data]. *)
Theorem empty_reply_blocks_later_turns s s' r :
  In {| role := assistant; content := "" |} (messages s) ->
  sendMessage_start s = Some (s', r) ->
  exists issues n,
    POST rt (Some base) net (panel_request r caller)
    = ([], Ok (invalid_envelope rt issues)) /\
    mentions [Key "history"; Index n; Key "content"] issues /\
    turn rt (Some base) net caller s
    = Some (Ok {| messages := messages s ++ [{| role := user; content := trim (input s) |}];
                  input := ""; loading := false;
                  error := Some "Invalid request data" |}).
Proof.
  intros Hin Hs.
  destruct (sendMessage_start_spec _ _ _ Hs) as [Hmsg [_ [_ [Hh Hm]]]].
  assert (In {| role := assistant; content := "" |}
             (filter (fun m => negb (is_system m)) (messages s))) as Hf.
  { apply filter_In. split; trivial. }
  apply In_nth_error in Hf. destruct Hf as [n Hn].
  apply (map_nth_error ChatMessage_json) in Hn.
  destruct (empty_content_reported
              [("role", JString "assistant"); ("content", JString "")] eq_refl)
    as [bad [x [Eb [Hx [Hp _]]]]].
  destruct (history_entry_reported
              (("message", JString (message r)) ::
               [("history", JArray (map ChatMessage_json
                                      (filter (fun m => negb (is_system m)) (messages s))))])
              _ n _ bad x eq_refl Hn Eb Hx) as [issues [E Hi]].
  assert (ChatRequest_json r
          = JObject (("message", JString (message r)) ::
                     [("history", JArray (map ChatMessage_json
                        (filter (fun m => negb (is_system m)) (messages s))))])) as Ej.
  { unfold ChatRequest_json. now rewrite Hh. }
  rewrite <- Ej in E.
  assert (POST rt (Some base) net (panel_request r caller)
          = ([], Ok (invalid_envelope rt issues))) as Hpost.
  { exact (POST_invalid rt net (panel_request r caller) base configured
             (ChatRequest_json r) issues eq_refl E). }
  exists issues, n. split; [exact Hpost|]. split.
  - eexists. split; [exact Hi|]. simpl. now rewrite Hp.
  - unfold turn. rewrite Hs, Hpost. cbn [snd]. do 2 f_equal.
    rewrite (settle_failed_response rt (invalid_envelope rt issues) s' _
               "Invalid request data" eq_refl eq_refl eq_refl).
    unfold sendMessage_start in Hs.
    destruct (String.eqb (trim (input s)) "" || loading s); [discriminate|].
    inversion Hs; subst. reflexivity.
Qed.

End Together.

Lemma truthy_error_message_error v e s :
  prop v "error" = Some (JString e) -> e <> "" ->
  truthy_error_message v s = JString e.
Proof.
  intros He Hne. unfold truthy_error_message. rewrite He. cbn [truthy].
  apply String.eqb_neq in Hne. now rewrite Hne.
Qed.

Lemma res_ok_replied_ok res resp :
  status resp = res_status res -> replied_ok resp = res_ok res.
Proof. unfold replied_ok, res_ok. now intros ->. Qed.

Section Turn.

Variable rt : Runtime.
Variable net : Network.
Variable base : string.
Variable caller : AbortSignal.
Hypothesis configured : unset (Some base) = false.

Variable s s' : PanelState.
Variable r : ChatRequest.
Hypothesis reached : reachable rt s.
Hypothesis spoke : assistant_spoke (messages s).
Hypothesis started : sendMessage_start s = Some (s', r).

Local Abbreviation req := (panel_request r caller).
Local Abbreviation call := (upstream_call rt base (panel_request r caller) r).

Lemma panel_request_validates :
  safeParse chatRequestSchema (ChatRequest_json r) = Success r.
Proof.
  apply ChatRequest_roundtrip.
  destruct (sendMessage_start_spec _ _ _ started) as [_ [_ [_ [Hh _]]]].
  unfold valid_request. rewrite Hh.
  apply history_valid_iff; trivial. now apply (reachable_users_spoke rt).
Qed.

Lemma started_state :
  s' = {| messages := messages s ++ [{| role := user; content := trim (input s) |}];
          input := ""; loading := true; error := None |}.
Proof.
  pose proof started as H. unfold sendMessage_start in H.
  destruct (String.eqb (trim (input s)) "" || loading s); [discriminate|].
  now inversion H.
Qed.

(** A whole turn that succeeds: from a reachable state without an empty
    assistant message, when the upstream answers 2xx in time with a JSON
    object holding a string [reply] and a boolean [handled], the turn ends
    with the conversation extended by the trimmed input as the user's
    message and the upstream's reply as the assistant's, the input
    cleared, no error shown and the loading state over. *)
Theorem turn_appends_question_and_answer t res v a h :
  net call = Responds t res ->
  quiet_until rt req t ->
  quiet_until rt req (body_at res) ->
  res_ok res = true ->
  includes "application/json" (contentType_of res) = true ->
  json_body res = Some v ->
  prop v "reply" = Some (JString a) ->
  prop v "handled" = Some (JBool h) ->
  turn rt (Some base) net caller s
  = Some (Ok {| messages := messages s ++
                            [{| role := user; content := trim (input s) |};
                             {| role := assistant; content := a |}];
                input := ""; loading := false; error := None |}).
Proof.
  intros Hn Ht Hbody Hok J Hv Hr Hh.
  assert (POST rt (Some base) net req
          = ([Fetched call], Ok (success_envelope {| reply := a; handled := h |}))) as E.
  { apply (POST_answered rt net req base configured (ChatRequest_json r) r eq_refl
             panel_request_validates t res _ Hn Ht Hbody).
    apply respond_success; trivial. unfold payload_of. rewrite J, Hv.
    now apply shaped_response_parses. }
  unfold turn. rewrite started, E. cbn [snd]. do 2 f_equal.
  rewrite (settle_reply rt (success_envelope {| reply := a; handled := h |}) s'
             (ChatResponse_json {| reply := a; handled := h |}) a
             eq_refl eq_refl eq_refl), started_state.
  cbn [messages input error]. now rewrite <- app_assoc.
Qed.

(** A whole turn that fails upstream: when the upstream answers in time
    with a non-2xx status the route can pass on and a JSON object whose
    [error] is a non-empty string, the turn ends with the user's message
    appended, no assistant message, and that string shown as the error. *)
Theorem turn_shows_the_upstream_error t res v e :
  net call = Responds t res ->
  quiet_until rt req t ->
  quiet_until rt req (body_at res) ->
  res_ok res = false ->
  sendable (res_status res) = true ->
  includes "application/json" (contentType_of res) = true ->
  json_body res = Some v ->
  prop v "error" = Some (JString e) ->
  e <> "" ->
  turn rt (Some base) net caller s
  = Some (Ok {| messages := messages s ++ [{| role := user; content := trim (input s) |}];
                input := ""; loading := false; error := Some e |}).
Proof.
  intros Hn Ht Hbody Hok Hs J Hv He Hne.
  assert (POST rt (Some base) net req
          = ([Fetched call], Ok (error_envelope (res_status res) (JString e)))) as E.
  { apply (POST_answered rt net req base configured (ChatRequest_json r) r eq_refl
             panel_request_validates t res _ Hn Ht Hbody).
    rewrite (respond_failure rt res _ Hok Hs). unfold payload_of. rewrite J, Hv.
    now rewrite (truthy_error_message_error v e _ He Hne). }
  unfold turn. rewrite started, E. cbn [snd]. do 2 f_equal.
  rewrite (settle_failed_response rt (error_envelope (res_status res) (JString e)) s'
             (JObject [("error", JString e)]) e).
  - rewrite started_state. reflexivity.
  - rewrite (res_ok_replied_ok res); trivial.
  - reflexivity.
  - now rewrite (banner_of_error_member (JObject [("error", JString e)]) e _ eq_refl Hne).
Qed.

(** A whole turn that times out: when the route's signal fires while the
    upstream has not answered, with a reason named AbortError or
    TimeoutError, the turn ends with the user's message appended and
    [Upstream request timed out] shown as the error. *)
Theorem turn_shows_the_timeout :
  unsettled_at (net call) (abort_time req) ->
  abort_named (reason (signal call)) ->
  turn rt (Some base) net caller s
  = Some (Ok {| messages := messages s ++ [{| role := user; content := trim (input s) |}];
                input := ""; loading := false;
                error := Some "Upstream request timed out" |}).
Proof.
  intros Hu Hnamed.
  assert (relay rt base net req
          = ([Fetched call; Aborted (abort_time req) (reason (signal call))],
             Throw (reason (signal call)))) as R.
  { rewrite (relay_valid rt net req base (ChatRequest_json r) r eq_refl
               panel_request_validates).
    rewrite (fetch_aborted net call (abort_time req) (relay_signal_fires rt req) Hu).
    reflexivity. }
  pose proof (POST_aborted rt net req base configured _ _ R Hnamed) as E.
  unfold turn. rewrite started, E. cbn [snd]. do 2 f_equal.
  rewrite (settle_failed_response rt timeout_envelope s' _
             "Upstream request timed out" eq_refl eq_refl eq_refl).
  rewrite started_state. reflexivity.
Qed.

End Turn.

(** ** What the list shows *)

Lemma map_indexed_shown l : forall i,
  map shown (map_indexed MessageItem i l) = map content l.
Proof. induction l as [|m rest IH]; intros i; simpl; [|rewrite IH]; reflexivity. Qed.

Lemma map_indexed_keys l : forall i,
  map item_key (map_indexed MessageItem i l) = seq i (length l).
Proof. induction l as [|m rest IH]; intros i; simpl; [|rewrite IH]; reflexivity. Qed.

Lemma map_indexed_avatars l : forall i,
  Forall (fun m => role m <> system) l ->
  Forall2 (fun it m => (role m = user /\ avatar it = "You") \/
                       (role m = assistant /\ avatar it = "AI"))
          (map_indexed MessageItem i l) l.
Proof.
  induction l as [|m rest IH]; intros i H; simpl; [constructor|].
  inversion H as [|m' l' Hm Hrest]; subst. constructor; [|now apply IH].
  unfold MessageItem. simpl. destruct (role m); auto. now elim Hm.
Qed.

(** In every state the panel can reach the list shows the conversation
    without its leading system message, and nothing else: one item per
    later message, in order, keyed 0, 1, 2, ..., with the message's content
    as text and the avatar [You] for the user's and [AI] for the
    assistant's; and these messages are exactly the history the next turn
    sends. *)
Theorem list_shows_all_but_the_system_message rt s :
  reachable rt s ->
  exists rest,
    messages s = system_message :: rest /\
    map shown (MessageList (messages s)) = map content rest /\
    map item_key (MessageList (messages s)) = seq 0 (length rest) /\
    Forall2 (fun it m => (role m = user /\ avatar it = "You") \/
                         (role m = assistant /\ avatar it = "AI"))
            (MessageList (messages s)) rest /\
    (forall s' r, sendMessage_start s = Some (s', r) -> history r = Some rest).
Proof.
  intros Hr. destruct (reachable_led rt s Hr) as [rest [Hm Hrest]].
  exists rest. split; trivial.
  assert (filter (fun m => negb (is_system m)) (messages s) = rest) as F.
  { rewrite Hm. simpl. now apply filter_non_system_id. }
  unfold MessageList. rewrite F.
  split; [apply map_indexed_shown|]. split; [apply map_indexed_keys|].
  split; [now apply map_indexed_avatars|].
  intros s' r Hs. destruct (sendMessage_start_spec _ _ _ Hs) as [_ [_ [_ [Hh _]]]].
  now rewrite Hh, F.
Qed.

(** ** The headers [postJSON] sends *)

Lemma replace_member_app k v v' before after :
  Forall (fun kv => fst kv <> k) before ->
  replace_member k v' (before ++ (k, v) :: after) = before ++ (k, v') :: after.
Proof.
  induction 1 as [|[k0 v0] before Hk _ IH]; cbn [replace_member app].
  - now rewrite String.eqb_refl.
  - simpl in Hk. destruct (String.eqb_spec k k0) as [->|_]; [now elim Hk|].
    now rewrite IH.
Qed.

Lemma replace_member_keys k v o : map fst (replace_member k v o) = map fst o.
Proof.
  induction o as [|[k0 v0] o IH]; cbn [replace_member]; trivial.
  destruct (String.eqb_spec k k0) as [->|_]; simpl; [trivial|now rewrite IH].
Qed.

Lemma replace_member_skip k1 v1 k v before after :
  k1 <> k ->
  replace_member k1 v1 (before ++ (k, v) :: after)
  = if has_member k1 before
    then replace_member k1 v1 before ++ (k, v) :: after
    else before ++ (k, v) :: replace_member k1 v1 after.
Proof.
  intros Hne. induction before as [|[k0 v0] before IH]; cbn [replace_member app].
  - apply String.eqb_neq in Hne. now rewrite Hne.
  - unfold has_member. cbn [existsb fst].
    destruct (String.eqb k1 k0); cbn [orb app]; trivial.
    fold (has_member k1 before). rewrite IH.
    now destruct (has_member k1 before).
Qed.

Lemma Forall_keys (P : string -> Prop) (o o' : list (string * string)) :
  map fst o = map fst o' ->
  Forall (fun kv => P (fst kv)) o -> Forall (fun kv => P (fst kv)) o'.
Proof.
  intros E H. apply Forall_map. rewrite <- E. now apply Forall_map.
Qed.

Lemma insert_index_before n k1 v1 k v after :
  array_index k = None ->
  forall before,
  Forall (fun kv => array_index (fst kv) <> None) before ->
  exists before',
    insert_index n k1 v1 (before ++ (k, v) :: after) = before' ++ (k, v) :: after /\
    (forall x, In x before' -> x = (k1, v1) \/ In x before).
Proof.
  intros Hk. induction 1 as [|[k0 v0] before H0 _ IH]; cbn [insert_index app fst].
  - rewrite Hk. exists [(k1, v1)]. split; trivial. intros x [<-|[]]. now left.
  - simpl in H0. destruct (array_index k0) as [n0|]; [|now elim H0].
    destruct (n0 <? n).
    + destruct IH as [before' [E Hin]]. exists ((k0, v0) :: before'). rewrite E.
      split; trivial. intros x [<-|Hx]; [right; now left|].
      destruct (Hin x Hx); [now left|right; now right].
    + exists ((k1, v1) :: (k0, v0) :: before). split; trivial.
      intros x [<-|Hx]; auto.
Qed.

(** Setting a member leaves the one member named [k] in its place, with
    the new value if the member set is [k] itself. *)
Lemma set_member_sole k v k1 v1 o :
  array_index k = None ->
  sole_member k v o ->
  sole_member k (if String.eqb k k1 then v1 else v) (set_member k1 v1 o).
Proof.
  intros Hk [before [after [-> [Hidx Hone]]]].
  pose proof (proj1 (Forall_app _ _ _) Hone) as [Hb Ha].
  unfold set_member. destruct (String.eqb_spec k k1) as [<-|Hne].
  - assert (has_member k (before ++ (k, v) :: after) = true) as Hh.
    { unfold has_member. rewrite existsb_app. cbn [existsb fst].
      rewrite String.eqb_refl. now rewrite orb_true_r. }
    rewrite Hh, (replace_member_app k v v1 before after Hb).
    exists before, after. auto.
  - assert (k1 <> k) as Hne' by congruence.
    destruct (has_member k1 (before ++ (k, v) :: after)).
    + rewrite (replace_member_skip k1 v1 k v before after Hne').
      destruct (has_member k1 before).
      * exists (replace_member k1 v1 before), after. split; trivial.
        pose proof (replace_member_keys k1 v1 before) as E. symmetry in E. split.
        -- exact (Forall_keys (fun x => array_index x <> None) _ _ E Hidx).
        -- apply Forall_app. split; trivial.
           exact (Forall_keys (fun x => x <> k) _ _ E Hb).
      * exists before, (replace_member k1 v1 after). split; trivial. split; trivial.
        apply Forall_app. split; trivial.
        pose proof (replace_member_keys k1 v1 after) as E. symmetry in E.
        exact (Forall_keys (fun x => x <> k) _ _ E Ha).
    + destruct (array_index k1) as [n|] eqn:E1.
      * destruct (insert_index_before n k1 v1 k v after Hk before Hidx)
          as [before' [E Hin]].
        exists before', after. split; trivial.
        rewrite Forall_forall in Hidx, Hb. split.
        -- apply Forall_forall. intros x Hx.
           destruct (Hin x Hx) as [->|Hx']; [simpl; congruence|now apply Hidx].
        -- apply Forall_app. split; trivial. apply Forall_forall. intros x Hx.
           destruct (Hin x Hx) as [->|Hx']; [exact Hne'|now apply Hb].
      * exists before, (after ++ [(k1, v1)]). rewrite <- app_assoc. split; trivial.
        split; trivial. apply Forall_app. split; trivial.
        apply Forall_app. split; trivial. constructor; trivial.
Qed.

Lemma spread_sole k :
  array_index k = None ->
  forall b o v, sole_member k v o -> sole_member k (member_or k v b) (spread o b).
Proof.
  intros Hk. unfold spread.
  induction b as [|[k1 v1] b IH]; intros o v H; cbn [fold_left member_or fst snd]; trivial.
  apply IH. now apply set_member_sole.
Qed.

(** The headers object [postJSON] hands to [fetch] has exactly one member
    named [Content-Type], names being taken as written, and only members
    whose names are array indices are listed before it; its value is
    [application/json] unless the caller's headers have a member of that
    very name, and then it is the caller's. *)
Theorem postJSON_names_a_content_type env pathname body opts :
  sole_member "Content-Type"
    (member_or "Content-Type" "application/json"
       (match extra_headers opts with Some h => h | None => [] end))
    (headers (postJSON_call env pathname body opts)).
Proof.
  cbn [headers postJSON_call]. apply spread_sole; [reflexivity|].
  exists [], []. repeat split; constructor.
Qed.

(** * Further concrete runs *)

Example typed_state_reachable : reachable sample_runtime typed_state.
Proof.
  apply (reach_step _ initial_state); [apply reach_mount|apply step_input].
Qed.

Example trim_strips_every_space :
  trim (no_break_space ++ " Where?" ++ line_separator ++ byte_order_mark)%string = "Where?" /\
  trim ("a" ++ no_break_space ++ "b")%string = ("a" ++ no_break_space ++ "b")%string /\
  sendMessage_start (setInput (no_break_space ++ line_separator)%string initial_state) = None.
Proof. repeat split. Qed.

Example padded_question :
  sendMessage_start
    (setInput (no_break_space ++ "Where?" ++ line_separator)%string initial_state)
  = Some (first_turn_state, first_turn_request).
Proof. reflexivity. Qed.

Example stalled_body :
  POST_awaiting sample_runtime api (answers 5 (json_response 200 paris)) Stalls
  = ([], Pending) /\
  POST_awaiting sample_runtime None (answers 5 (json_response 200 paris)) Stalls
  = ([], Ok missing_url_envelope).
Proof. split; reflexivity. Qed.

Example text_body_that_is_json :
  sendMessage_settle sample_runtime
    (Replied {| status := 200; resp_content_type := "text/plain"; resp_body := TextBody "null" |})
    first_turn_state
  = {| messages := messages first_turn_state; input := ""; loading := false;
       error := Some "runtime error" |}.
Proof. reflexivity. Qed.

Example trailing_slashes :
  API_BASE public_env = "http://api" /\
  API_BASE (Some "http://api//") = "http://api/" /\
  API_BASE (Some "/") = "".
Proof. repeat split. Qed.

Example empty_reply_turn :
  turn sample_runtime api
    (answers 5 (json_response 200 (JObject [("reply", JString ""); ("handled", JBool false)])))
    never typed_state
  = Some (Ok {| messages := [system_message;
                             {| role := user; content := "Where?" |};
                             {| role := assistant; content := "" |}];
                input := ""; loading := false; error := None |}).
Proof. reflexivity. Qed.

Lemma chatRequestSchema_accepts_exactly_witness :
  request_matches chatty_data chatty_parsed.
Proof.
  apply (proj1 (chatRequestSchema_accepts_exactly chatty_data chatty_parsed)).
  reflexivity.
Defined.

Lemma chatResponseSchema_accepts_exactly_witness :
  response_matches chatty_answer {| reply := "Paris"; handled := true |}.
Proof.
  apply (proj1 (chatResponseSchema_accepts_exactly chatty_answer
                  {| reply := "Paris"; handled := true |})).
  reflexivity.
Defined.

Lemma validation_is_idempotent_witness :
  safeParse chatRequestSchema (ChatRequest_json chatty_parsed) = Success chatty_parsed.
Proof.
  apply (validation_is_idempotent chatty_data chatty_parsed). reflexivity.
Defined.

Lemma every_issue_points_at_a_field_witness :
  Forall (fun x => request_path 1 (path x))
    [ {| code := invalid_value; path := [Key "history"; Index 0; Key "role"];
         custom_message := None |};
      {| code := too_small; path := [Key "history"; Index 0; Key "content"];
         custom_message := Some "Message cannot be empty" |} ].
Proof.
  apply (every_issue_points_at_a_field bad_history_data). reflexivity.
Defined.


Lemma POST_answer_origin_witness :
  (unset api = true /\
   [Fetched (upstream_call sample_runtime "http://api" hello_request hello_parsed)] = [] /\
   success_envelope {| reply := "Paris"; handled := true |} = missing_url_envelope) \/
  (exists data issues,
     unset api = false /\
     req_body hello_request = Some data /\
     safeParse chatRequestSchema data = Failure issues /\
     [Fetched (upstream_call sample_runtime "http://api" hello_request hello_parsed)] = [] /\
     success_envelope {| reply := "Paris"; handled := true |}
     = invalid_envelope sample_runtime issues) \/
  (exists base err,
     api = Some base /\ base <> "" /\
     relay sample_runtime base (answers 5 (json_response 200 paris)) hello_request
     = ([Fetched (upstream_call sample_runtime "http://api" hello_request hello_parsed)],
        Throw err) /\
     ((abort_named err /\
       success_envelope {| reply := "Paris"; handled := true |} = timeout_envelope) \/
      (~ abort_named err /\
       success_envelope {| reply := "Paris"; handled := true |}
       = unexpected_envelope "[API_CHAT] Unexpected error" (err_message err)))) \/
  (exists base data parsed t res,
     api = Some base /\ base <> "" /\
     req_body hello_request = Some data /\
     safeParse chatRequestSchema data = Success parsed /\
     calls [Fetched (upstream_call sample_runtime "http://api" hello_request hello_parsed)]
     = [upstream_call sample_runtime base hello_request parsed] /\
     answers 5 (json_response 200 paris) (upstream_call sample_runtime base hello_request parsed)
     = Responds t res /\
     quiet_until sample_runtime hello_request t /\
     ((res_ok res = true /\
       status (success_envelope {| reply := "Paris"; handled := true |}) = 200 /\
       quiet_until sample_runtime hello_request (body_at res)) \/
      (res_ok res = false /\
       status (success_envelope {| reply := "Paris"; handled := true |}) = res_status res))).
Proof.
  apply (POST_answer_origin sample_runtime (answers 5 (json_response 200 paris))
           hello_request api).
  reflexivity.
Defined.

Lemma undecodable_body_gives_500_witness :
  POST sample_runtime api (fun _ => Silent) garbled_request
  = ([], Ok (unexpected_envelope "[API_CHAT] Unexpected error" "runtime error")).
Proof.
  apply (undecodable_body_gives_500 sample_runtime (fun _ => Silent) garbled_request
           "http://api"); reflexivity.
Defined.

Lemma text_answer_passed_through_witness :
  POST sample_runtime api (answers 5 html_response) hello_request
  = ([Fetched (upstream_call sample_runtime "http://api" hello_request hello_parsed)],
     Ok {| status := 200; resp_content_type := "text/html";
           resp_body := TextBody "<p>hi</p>" |}).
Proof.
  apply (text_answer_passed_through sample_runtime (answers 5 html_response)
           hello_request "http://api" eq_refl hello_data hello_parsed eq_refl eq_refl
           5 html_response);
    reflexivity.
Defined.

Lemma abort_while_reading_the_body_witness :
  POST sample_runtime api (answers 5 stalled_response) hello_request
  = ([Fetched (upstream_call sample_runtime "http://api" hello_request hello_parsed);
      Aborted 20000 (reason (AbortSignal_timeout sample_runtime timeout_ms))],
     Ok (unexpected_envelope "[API_CHAT] Unexpected error" "runtime error")).
Proof.
  refine (proj1 (proj2
            (abort_while_reading_the_body sample_runtime (answers 5 stalled_response)
               hello_request "http://api" eq_refl hello_data hello_parsed
               eq_refl eq_refl 5 stalled_response eq_refl eq_refl _))
            eq_refl eq_refl).
  vm_compute. discriminate.
Defined.



Lemma postJSON_needs_a_base_witness :
  postJSON sample_runtime (Some "/") (answers 5 (json_response 200 paris)) "/chat"
    hello_data default_options
  = ([], Throw (new_Error "NEXT_PUBLIC_API_URL is not set")).
Proof.
  apply (postJSON_needs_a_base sample_runtime (Some "/")).
  right; right; reflexivity.
Defined.





Lemma postJSON_settles_without_AbortError_witness :
  name (new_Error "Request timed out") <> "AbortError".
Proof.
  apply (proj2 (postJSON_settles_without_AbortError sample_runtime public_env
                  (fun _ => Silent) "/chat" hello_data default_options)).
  reflexivity.
Defined.

Example numbered_headers :
  headers (postJSON_call public_env "/chat" hello_data numbered_options)
  = [("0", "c"); ("7", "g"); ("Content-Type", "text/plain"); ("X-Id", "b"); ("07", "z")].
Proof. reflexivity. Qed.

Lemma postJSON_names_a_content_type_witness :
  sole_member "Content-Type" "text/plain"
    (headers (postJSON_call public_env "/chat" hello_data numbered_options)).
Proof.
  apply (postJSON_names_a_content_type public_env "/chat" hello_data numbered_options).
Defined.

Lemma send_button_agrees_with_sendMessage_witness :
  key enter_key = "Enter" /\ shiftKey enter_key = false /\
  send_disabled (input typed_state) (loading typed_state) = false /\
  ChatInput_click typed_state = Some (first_turn_state, first_turn_request).
Proof.
  apply (proj2 (proj2 (send_button_agrees_with_sendMessage typed_state)) enter_key).
  reflexivity.
Defined.

Lemma one_turn_at_a_time_witness :
  loading typed_state = false /\
  loading first_turn_state = true /\
  (forall v, sendMessage_start (setInput v first_turn_state) = None) /\
  (forall v, sendMessage_start (setInput v (resetChat first_turn_state)) = None) /\
  (forall o v, trim v <> "" ->
     exists s2 r2,
       sendMessage_start (setInput v (sendMessage_settle sample_runtime o first_turn_state))
       = Some (s2, r2)).
Proof.
  apply (one_turn_at_a_time sample_runtime typed_state first_turn_state first_turn_request).
  reflexivity.
Defined.

Lemma failed_turn_shows_an_error_witness :
  sendMessage_settle sample_runtime (Replied timeout_envelope) first_turn_state
  = {| messages := messages first_turn_state; input := input first_turn_state;
       loading := false; error := Some "Upstream request timed out" |}.
Proof.
  apply (proj1 (proj2 (failed_turn_shows_an_error sample_runtime first_turn_state))
           timeout_envelope
           (JObject [("error", JString "Upstream request timed out")])
           "Upstream request timed out");
    try reflexivity; discriminate.
Defined.

Lemma reset_does_not_cancel_a_turn_witness :
  loading (resetChat first_turn_state) = true /\
  (forall w, sendMessage_start (setInput w (resetChat first_turn_state)) = None) /\
  messages (sendMessage_settle sample_runtime
              (Replied (success_envelope {| reply := "Paris"; handled := true |}))
              (resetChat first_turn_state))
  = [system_message; {| role := assistant; content := "Paris" |}].
Proof.
  apply (reset_does_not_cancel_a_turn sample_runtime typed_state first_turn_state
           first_turn_request (success_envelope {| reply := "Paris"; handled := true |})
           paris "Paris");
    reflexivity.
Defined.

Lemma panel_request_accepted_iff_witness :
  users_spoke (messages typed_state) /\
  ((exists parsed,
      safeParse chatRequestSchema (ChatRequest_json first_turn_request) = Success parsed)
   <-> assistant_spoke (messages typed_state)).
Proof.
  apply (panel_request_accepted_iff sample_runtime typed_state first_turn_state
           first_turn_request).
  - apply (reach_step _ initial_state); [apply reach_mount|apply step_input].
  - reflexivity.
Defined.

Lemma empty_reply_blocks_later_turns_witness :
  exists issues n,
    POST sample_runtime api (fun _ => Silent)
      (panel_request {| message := "Why?";
                        history := Some [{| role := user; content := "Where?" |};
                                         {| role := assistant; content := "" |}] |}
                     never)
    = ([], Ok (invalid_envelope sample_runtime issues)) /\
    mentions [Key "history"; Index n; Key "content"] issues /\
    turn sample_runtime api (fun _ => Silent) never poisoned_state
    = Some (Ok {| messages := messages poisoned_state ++
                              [{| role := user; content := trim (input poisoned_state) |}];
                  input := ""; loading := false;
                  error := Some "Invalid request data" |}).
Proof.
  apply (empty_reply_blocks_later_turns sample_runtime (fun _ => Silent) "http://api"
           never eq_refl poisoned_state
           {| messages := messages poisoned_state ++ [{| role := user; content := "Why?" |}];
              input := ""; loading := true; error := None |}).
  - right; right; left; reflexivity.
  - reflexivity.
Defined.

Lemma turn_appends_question_and_answer_witness :
  turn sample_runtime api (answers 5 (json_response 200 paris)) never typed_state
  = Some (Ok {| messages := [system_message;
                             {| role := user; content := "Where?" |};
                             {| role := assistant; content := "Paris" |}];
                input := ""; loading := false; error := None |}).
Proof.
  refine (turn_appends_question_and_answer sample_runtime
            (answers 5 (json_response 200 paris)) "http://api" never eq_refl
            typed_state first_turn_state first_turn_request _ _ eq_refl
            5 (json_response 200 paris) paris "Paris" true
            eq_refl eq_refl eq_refl eq_refl eq_refl eq_refl eq_refl eq_refl).
  - apply (reach_step _ initial_state); [apply reach_mount|apply step_input].
  - constructor; [discriminate|constructor].
Defined.

Lemma turn_shows_the_upstream_error_witness :
  turn sample_runtime api (answers 5 (json_response 503 overloaded)) never typed_state
  = Some (Ok {| messages := [system_message; {| role := user; content := "Where?" |}];
                input := ""; loading := false; error := Some "overloaded" |}).
Proof.
  refine (turn_shows_the_upstream_error sample_runtime
            (answers 5 (json_response 503 overloaded)) "http://api" never eq_refl
            typed_state first_turn_state first_turn_request _ _ eq_refl
            5 (json_response 503 overloaded) overloaded "overloaded"
            eq_refl eq_refl eq_refl eq_refl eq_refl eq_refl eq_refl eq_refl _).
  - apply (reach_step _ initial_state); [apply reach_mount|apply step_input].
  - constructor; [discriminate|constructor].
  - discriminate.
Defined.

Lemma turn_shows_the_timeout_witness :
  turn sample_runtime api (fun _ => Silent) never typed_state
  = Some (Ok {| messages := [system_message; {| role := user; content := "Where?" |}];
                input := ""; loading := false;
                error := Some "Upstream request timed out" |}).
Proof.
  refine (turn_shows_the_timeout sample_runtime (fun _ => Silent) "http://api" never
            eq_refl typed_state first_turn_state first_turn_request _ _ eq_refl I _).
  - apply (reach_step _ initial_state); [apply reach_mount|apply step_input].
  - constructor; [discriminate|constructor].
  - right. reflexivity.
Defined.

Lemma list_shows_all_but_the_system_message_witness :
  exists rest,
    messages typed_state = system_message :: rest /\
    map shown (MessageList (messages typed_state)) = map content rest /\
    map item_key (MessageList (messages typed_state)) = seq 0 (length rest) /\
    Forall2 (fun it m => (role m = user /\ avatar it = "You") \/
                         (role m = assistant /\ avatar it = "AI"))
            (MessageList (messages typed_state)) rest /\
    (forall s' r, sendMessage_start typed_state = Some (s', r) -> history r = Some rest).
Proof.
  apply (list_shows_all_but_the_system_message sample_runtime typed_state).
  apply (reach_step _ initial_state); [apply reach_mount|apply step_input].
Defined.
